(** * The spreadsheet adapter of the content-workflow backend

    A shallow embedding of [GoogleSheetsService] (services/sheets.js):
    [loadColumnHeaders], [getColumnHeaders], [syncSheet], [getContentById]
    and [updateContent], together with a model of the remote sheet store
    they call, and the properties of the adapter stated in the design
    document.

    JavaScript objects used as maps ([item], [updates]) are finite maps from
    property keys to values, their own properties, read and written through
    [Object.prototype]; arrays are lists; the asynchronous methods are
    computations in a state-and-exception monad over the service object, the
    remote store and the clock. *)

From Stdlib Require Import ZArith NArith.
From stdpp Require Import base option list strings pretty gmap.


(** ** JavaScript values *)

(** The objects of the runtime that a read of a plain object can give:
    [Object.prototype] itself and its native functions, named as
    [fn.name] names them. *)
Inductive builtin : Type :=
  | ObjectPrototype
  | NativeFunction (name : string).

#[global] Instance builtin_eq_dec : EqDecision builtin.
Proof. solve_decision. Defined.

(** [Number.isSafeInteger(z)] *)
Definition safe_integer (z : Z) : bool := (Z.abs z <? 2 ^ 53)%Z.

(** The values that reach the service: cell values returned by the remote
    store, identifiers and the values of an update payload, all primitive,
    and the built-in objects above.  Numbers are the safe integers; other
    numbers are outside the model. *)
Inductive value : Type :=
  | VUndef
  | VNull
  | VBool (b : bool)
  | VNum (z : Z) (safe : Is_true (safe_integer z))
  | VStr (s : string)
  | VBuiltin (b : builtin).

#[global] Instance value_eq_dec : EqDecision value.
Proof.
  intros x y. destruct x as [| |b|z Hz|s|b], y as [| |b'|z' Hz'|s'|b'];
    try (right; discriminate); try (by left).
  - destruct (decide (b = b')) as [->|Hne]; [by left|right; congruence].
  - destruct (decide (z = z')) as [->|Hne]; [|right; congruence].
    left. f_equal. apply proof_irrel.
  - destruct (decide (s = s')) as [->|Hne]; [by left|right; congruence].
  - destruct (decide (b = b')) as [->|Hne]; [by left|right; congruence].
Defined.

(** ToBoolean: [undefined], [null], [false], [0] and [''] are falsy. *)
Definition truthy (v : value) : bool :=
  match v with
  | VUndef | VNull => false
  | VBool b => b
  | VNum z _ => negb (Z.eqb z 0)
  | VStr s => negb (String.eqb s "")
  | VBuiltin _ => true
  end.

(** [a || b] *)
Definition js_or (a b : value) : value := if truthy a then a else b.

(** [a === b]: equality of primitives, identity of built-in objects *)
Definition strict_eq (a b : value) : bool := bool_decide (a = b).

(** ToPropertyKey, which for these values is ToString: the string under
    which [obj[v]] reads or writes.  A safe integer prints its decimal
    digits. *)
Definition toKey (v : value) : string :=
  match v with
  | VUndef => "undefined"
  | VNull => "null"
  | VBool true => "true"
  | VBool false => "false"
  | VNum z _ => pretty z
  | VStr s => s
  | VBuiltin ObjectPrototype => "[object Object]"
  | VBuiltin (NativeFunction name) => "function " +:+ name +:+ "() { [native code] }"
  end%string.

(** [row[i]]: reading an array past its end gives [undefined]. *)
Definition js_index (row : list value) (i : nat) : value :=
  default VUndef (row !! i).

(** The members of [Object.prototype], which every object created by a
    literal, a spread or [JSON.parse] inherits: the accessor [__proto__],
    whose getter gives the prototype, [constructor], which is [Object], and
    ten native functions. *)
Definition Object_prototype (k : string) : option builtin :=
  if String.eqb k "__proto__" then Some ObjectPrototype
  else if String.eqb k "constructor" then Some (NativeFunction "Object")
  else if bool_decide (k ∈ ["__defineGetter__"; "__defineSetter__"; "hasOwnProperty";
                            "__lookupGetter__"; "__lookupSetter__"; "isPrototypeOf";
                            "propertyIsEnumerable"; "toString"; "valueOf";
                            "toLocaleString"]%string)
  then Some (NativeFunction k)
  else None.

(** [obj[k]] for an object given by its own properties: the own property,
    else the member of [Object.prototype] of that name, else [undefined].
    (The records of a sync may have had their prototype cleared; they are
    read under names that [Object.prototype] does not have.) *)
Definition obj_get (obj : gmap string value) (k : string) : value :=
  match obj !! k with
  | Some v => v
  | None =>
      match Object_prototype k with
      | Some b => VBuiltin b
      | None => VUndef
      end
  end.

(** ** A1 notation *)

(** A column name is a string of UTF-16 code units. *)
Definition colname : Type := list N.

(** [String.fromCharCode(c)]: one code unit, [c] modulo 2^16. *)
Definition fromCharCode (c : Z) : colname := [Z.to_N (c mod 65536)].

Fixpoint col_number_from (acc : nat) (name : colname) : option nat :=
  match name with
  | [] => Some acc
  | c :: rest =>
      if ((65 <=? c) && (c <=? 90))%N
      then col_number_from (acc * 26 + (N.to_nat c - 64)) rest
      else None
  end.

(** The 1-based column a name of capital letters stands for
    (A = 1, ..., Z = 26, AA = 27, ...); nothing for any other string. *)
Definition col_number (name : colname) : option nat :=
  match name with
  | [] => None
  | _ => col_number_from 0 name
  end.

(** The ranges the service builds.  [RowSpan t r1 r2] is the template
    [`${t}!${r1}:${r2}`]; [FromA t r1 c2 r2] is [`${t}!A${r1}:${c2}${r2}`],
    either row number possibly left out. *)
Inductive range : Type :=
  | RowSpan (t : string) (r1 r2 : nat)
  | FromA (t : string) (r1 : option nat) (c2 : colname) (r2 : option nat).

(** ** The remote sheet store *)

(** Modelled from the spec: the remote sheet store, which the service reaches
    through the [googleapis] client and which is no part of the repository.
    It is the collaborator of section 6 of the design document, with
    [readRange(rangeSpec)] giving rows of raw cell values and
    [writeRange(rangeSpec, rows)] overwriting cells, succeeding or failing.
    The store has one tab, named [title], holding rows of raw cell values;
    [grid !! 0] is row 1, the header row.  [online] says whether the remote
    service can be reached. *)
Record remote : Type := Remote {
  title : string;
  grid : list (list value);
  online : bool
}.

Inductive error : Type :=
  | ErrNotInitialized            (* 'Sheets service not initialized' *)
  | ErrNotFound (id : value)     (* `Content with ID ${id} not found` *)
  | ErrType                      (* a TypeError, e.g. reading a property of null *)
  | ErrRemote.                   (* the remote call failed *)

Inductive result (A : Type) : Type :=
  | OK (a : A)
  | Err (e : error).
Arguments OK {A} a.
Arguments Err {A} e.

(** The [values] property of a response is left out when the range holds no
    row. *)
Definition present (rows : list (list value)) : option (list (list value)) :=
  match rows with
  | [] => None
  | _ => Some rows
  end.

(** Modelled from the spec: [readRange], called as [spreadsheets.values.get];
    it gives the rows of the range, each cut to the columns of the range.
    The call fails when the store cannot be reached, when the tab does not
    exist, or when the range does not parse. *)
Definition values_get (rm : remote) (rg : range) : result (option (list (list value))) :=
  if negb (online rm) then Err ErrRemote else
  match rg with
  | RowSpan t r1 r2 =>
      if negb (String.eqb t (title rm)) then Err ErrRemote else
      OK (present (take (r2 + 1 - r1) (drop (r1 - 1) (grid rm))))
  | FromA t r1 c2 r2 =>
      if negb (String.eqb t (title rm)) then Err ErrRemote else
      match col_number c2 with
      | None => Err ErrRemote
      | Some n =>
          let first := default 1 r1 in
          let below := drop (first - 1) (grid rm) in
          let rows := match r2 with
                      | None => below
                      | Some last => take (last + 1 - first) below
                      end in
          OK (present (take n <$> rows))
      end
  end.

(** Overwrite the leading cells of row [i] (0-based) with [cells]; rows that do
    not exist yet are created. *)
Definition write_row (g : list (list value)) (i : nat) (cells : list value)
  : list (list value) :=
  match g !! i with
  | Some old => <[i := cells ++ drop (length cells) old]> g
  | None => g ++ replicate (i - length g) [] ++ [cells]
  end.

Fixpoint write_rows (g : list (list value)) (i : nat) (vals : list (list value))
  : list (list value) :=
  match vals with
  | [] => g
  | cells :: rest => write_rows (write_row g i cells) (S i) rest
  end.

(** Modelled from the spec: [writeRange], called as
    [spreadsheets.values.update]; a single overwrite of the cells of the range,
    starting at its top-left cell.  It fails like [values_get], and when the
    values do not fit the range. *)
Definition values_update (rm : remote) (rg : range) (vals : list (list value))
  : result remote :=
  if negb (online rm) then Err ErrRemote else
  match rg with
  | FromA t (Some r1) c2 (Some r2) =>
      if negb (String.eqb t (title rm)) then Err ErrRemote else
      match col_number c2 with
      | None => Err ErrRemote
      | Some n =>
          if (1 <=? r1) && (length vals <=? r2 + 1 - r1)
             && forallb (λ cells, length cells <=? n) vals
          then OK (Remote (title rm) (write_rows (grid rm) (r1 - 1) vals) (online rm))
          else Err ErrRemote
      end
  | _ => Err ErrRemote
  end.

(** ** The service object and the monad of its methods *)

(** The fields of [GoogleSheetsService] the methods below read or write.
    [sheets] tells whether the API client has been created; [lastSyncTime] is
    a reading of the clock. *)
Record service : Type := Service {
  sheets : bool;
  sheetTitle : option string;
  columnHeaders : option (list value);
  lastSyncTime : option nat
}.

Record world : Type := World {
  svc : service;
  store : remote;
  clock : nat
}.

(** A method either returns or throws, and in both cases leaves a world. *)
Definition M (A : Type) : Type := world → result A * world.

#[global] Instance M_ret : MRet M := λ A a w, (OK a, w).
#[global] Instance M_bind : MBind M := λ A B f m w,
  match m w with
  | (OK a, w') => f a w'
  | (Err e, w') => (Err e, w')
  end.

Definition throw {A : Type} (e : error) : M A := λ w, (Err e, w).
Definition this : M service := λ w, (OK (svc w), w).
Definition new_Date : M nat := λ w, (OK (clock w), w).

Definition set_columnHeaders (hs : list value) : M unit := λ w,
  let s := svc w in
  (OK (), World (Service (sheets s) (sheetTitle s) (Some hs) (lastSyncTime s))
                (store w) (clock w)).

Definition set_lastSyncTime (t : nat) : M unit := λ w,
  let s := svc w in
  (OK (), World (Service (sheets s) (sheetTitle s) (columnHeaders s) (Some t))
                (store w) (clock w)).

(** [await this.sheets.spreadsheets.values.get({ range })] *)
Definition await_get (rg : range) : M (option (list (list value))) := λ w,
  (values_get (store w) rg, w).

(** [await this.sheets.spreadsheets.values.update({ range, resource })] *)
Definition await_update (rg : range) (vals : list (list value)) : M unit := λ w,
  match values_update (store w) rg vals with
  | OK rm => (OK (), World (svc w) rm (clock w))
  | Err e => (Err e, w)
  end.

(** [`${this.sheetTitle}`] *)
Definition title_text (t : option string) : string :=
  match t with
  | Some s => s
  | None => "null"
  end.

(** [!this.sheets || !this.sheetTitle] *)
Definition not_initialized (s : service) : bool :=
  negb (sheets s) ||
  match sheetTitle s with
  | Some t => String.eqb t ""
  | None => true
  end.

(** ** The methods *)

(** [String.fromCharCode(65 + headers.length - 1)] *)
Definition lastCol (headers : list value) : colname :=
  fromCharCode (65 + Z.of_nat (length headers) - 1).

(** The four range templates of the service, for the tab [t]:
    [`${t}!1:1`], [`${t}!A2:${lastCol}`], [`${t}!A:${lastCol}`] and
    [`${t}!A${rowIndex + 1}:${lastCol}${rowIndex + 1}`]. *)
Definition header_range (t : string) : range := RowSpan t 1 1.
Definition sync_range (t : string) (headers : list value) : range :=
  FromA t (Some 2) (lastCol headers) None.
Definition locate_range (t : string) (headers : list value) : range :=
  FromA t None (lastCol headers) None.
Definition write_range (t : string) (headers : list value) (rowIndex : nat) : range :=
  FromA t (Some (rowIndex + 1)) (lastCol headers) (Some (rowIndex + 1)).

(** [response.data.values?.[0] || []] *)
Definition first_row (values : option (list (list value))) : list value :=
  match values with
  | Some (r :: _) => r
  | _ => []
  end.

Definition loadColumnHeaders : M (list value) :=
  s ← this;
  if negb (sheets s) then throw ErrType else
  values ← await_get (header_range (title_text (sheetTitle s)));
  set_columnHeaders (first_row values);;
  mret (first_row values).

(** An array, even an empty one, is truthy: only [null] triggers the load. *)
Definition getColumnHeaders : M (list value) :=
  s ← this;
  match columnHeaders s with
  | None => loadColumnHeaders
  | Some hs => mret hs
  end.


(** An object under construction: its own properties, and whether its
    prototype has been set to [null]. *)
Record jsobject : Type := JSObject {
  own : gmap string value;
  proto_null : bool
}.

(** [item[k] = v] for a primitive or built-in [v].  Under the name
    [__proto__], as long as the object inherits the accessor of
    [Object.prototype], the assignment runs its setter: [null] clears the
    prototype, a primitive is ignored, an object (which no cell read from a
    sheet is) becomes the prototype; no own property is created.  Any other
    assignment creates or overwrites an own property. *)
Definition assign (item : jsobject) (k : string) (v : value) : jsobject :=
  if String.eqb k "__proto__" && negb (proto_null item)
  then match v with
       | VNull => JSObject (own item) true
       | _ => item
       end
  else JSObject (<[k := v]> (own item)) (proto_null item).

(** [headers.forEach((header, index) => { item[header] = row[index] || null })],
    from position [index] on. *)
Fixpoint forEach_header (row : list value) (index : nat) (headers : list value)
    (item : jsobject) : jsobject :=
  match headers with
  | [] => item
  | header :: rest =>
      forEach_header row (S index) rest
        (assign item (toKey header) (js_or (js_index row index) VNull))
  end.

(** The record of a row, [const item = {}] filled by the loop, as its own
    properties. *)
Definition row_to_item (headers row : list value) : gmap string value :=
  own (forEach_header row 0 headers (JSObject ∅ false)).

Definition syncSheet : M (list (gmap string value)) :=
  s ← this;
  if not_initialized s then throw ErrNotInitialized else
  headers ← getColumnHeaders;
  values ← await_get (sync_range (title_text (sheetTitle s)) headers);
  let rows := default [] values in
  now ← new_Date;
  set_lastSyncTime now;;
  mret (row_to_item headers <$> rows).

(** [allContent.find(item => item['Post ID'] === id)]; [None] is [undefined]. *)
Definition getContentById (id : value) : M (option (gmap string value)) :=
  allContent ← syncSheet;
  mret (List.find (λ item, strict_eq (obj_get item "Post ID") id) allContent).

(** [rows.findIndex((row, index) => p(row, index))], from position [index] on;
    [None] is [-1]. *)
Fixpoint findIndex_from (p : list value → nat → bool) (index : nat)
    (rows : list (list value)) : option nat :=
  match rows with
  | [] => None
  | row :: rest =>
      if p row index then Some index else findIndex_from p (S index) rest
  end.

Definition findIndex (p : list value → nat → bool) (rows : list (list value))
  : option nat := findIndex_from p 0 rows.

(** [(row, index) => index > 0 && row[0] === id] *)
Definition is_target (id : value) (row : list value) (index : nat) : bool :=
  (0 <? index) && strict_eq (js_index row 0) id.

(** The row [updateContent] writes: for each header the value of
    [updates[header]] unless it is [undefined], or else the existing cell, or
    else the empty string.  The patch is a plain object, so [updates[header]]
    is read through [Object.prototype]. *)
Definition newRowData (headers : list value) (updates : gmap string value)
    (existingData : list value) : list value :=
  imap (λ colIndex header,
          if negb (strict_eq (obj_get updates (toKey header)) VUndef)
          then obj_get updates (toKey header)
          else js_or (js_index existingData colIndex) (VStr ""))
       headers.

Definition updateContent (id : value) (updates : gmap string value) : M bool :=
  s ← this;
  if not_initialized s then throw ErrNotInitialized else
  headers ← getColumnHeaders;
  values ← await_get (locate_range (title_text (sheetTitle s)) headers);
  let rows := default [] values in
  match findIndex (is_target id) rows with
  | None => throw (ErrNotFound id)
  | Some rowIndex =>
      let existingData := default [] (rows !! rowIndex) in
      await_update (write_range (title_text (sheetTitle s)) headers rowIndex)
                   [newRowData headers updates existingData];;
      mret true
  end.

(** [listRecords] of the facade is the route handler's call of [syncSheet]. *)
Definition listRecords : M (list (gmap string value)) := syncSheet.

(** ** Initialisation, validation and the periodic sync *)

(** Modelled from the spec: [getMetadata], called as [spreadsheets.get]; it
    gives the titles of the tabs of the spreadsheet, here the one tab of the
    store, and fails when the store cannot be reached. *)
Definition spreadsheets_get (rm : remote) : result (list string) :=
  if online rm then OK [title rm] else Err ErrRemote.

(** The service as the constructor leaves it: every field [null]. *)
Definition constructed : service := Service false None None None.

(** The process: the world, the field [syncInterval] of the service (the
    interval timer it holds, [None] for [null]), the interval timers that are
    running, and the timer the next [setInterval] returns. *)
Record process : Type := Process {
  world_of : world;
  syncInterval : option nat;
  intervals : gset nat;
  next_interval : nat
}.

Definition P (A : Type) : Type := process → result A * process.

#[global] Instance P_ret : MRet P := λ A a p, (OK a, p).
#[global] Instance P_bind : MBind P := λ A B f m p,
  match m p with
  | (OK a, p') => f a p'
  | (Err e, p') => (Err e, p')
  end.

(** A method of the service that uses no timer. *)
Definition lift {A : Type} (m : M A) : P A := λ p,
  let '(r, w) := m (world_of p) in
  (r, Process w (syncInterval p) (intervals p) (next_interval p)).

Definition this_syncInterval : P (option nat) := λ p, (OK (syncInterval p), p).

Definition set_syncInterval (t : nat) : P unit := λ p,
  (OK (), Process (world_of p) (Some t) (intervals p) (next_interval p)).

(** [setInterval(callback, 30000)]: a new timer starts running. *)
Definition setInterval : P nat := λ p,
  (OK (next_interval p),
   Process (world_of p) (syncInterval p) ({[next_interval p]} ∪ intervals p)
           (S (next_interval p))).

(** [clearInterval(t)]: the timer [t] stops, if it was running. *)
Definition clearInterval (t : nat) : P unit := λ p,
  (OK (), Process (world_of p) (syncInterval p) (intervals p ∖ {[t]})
                  (next_interval p)).

Definition startPeriodicSync : P unit :=
  held ← this_syncInterval;
  match held with
  | Some t => clearInterval t
  | None => mret ()
  end;;
  t ← setInterval;
  set_syncInterval t.

(** The callback of the timer: [try { await this.syncSheet() } catch { }],
    the outcome being logged only. *)
Definition periodic_sync : M unit := λ w, (OK (), (syncSheet w).2).

(** The timer [t] fires: its callback runs if it is still running. *)
Definition timer_fires (t : nat) : P unit := λ p,
  if decide (t ∈ intervals p) then lift periodic_sync p else (OK (), p).

(** [this.sheets = google.sheets({ version: 'v4', auth: this.auth })] *)
Definition set_sheets : M unit := λ w,
  let s := svc w in
  (OK (), World (Service true (sheetTitle s) (columnHeaders s) (lastSyncTime s))
                (store w) (clock w)).

Definition set_sheetTitle (t : string) : M unit := λ w,
  let s := svc w in
  (OK (), World (Service (sheets s) (Some t) (columnHeaders s) (lastSyncTime s))
                (store w) (clock w)).

(** [await this.sheets.spreadsheets.get({ spreadsheetId })] *)
Definition await_spreadsheets_get : M (list string) := λ w,
  (spreadsheets_get (store w), w).

(** [spreadsheet.data.sheets[0].properties.title] of a spreadsheet without
    tabs is a TypeError. *)
Definition initialize : P unit :=
  lift set_sheets;;
  titles ← lift await_spreadsheets_get;
  match titles with
  | [] => lift (throw ErrType)
  | first :: _ =>
      lift (set_sheetTitle first);;
      lift loadColumnHeaders;;
      startPeriodicSync
  end.

Definition getLastSyncTime : M (option nat) :=
  s ← this;
  mret (lastSyncTime s).

Definition cleanup : P unit :=
  held ← this_syncInterval;
  match held with
  | Some t => clearInterval t
  | None => mret ()
  end.

(** The configuration: [this.spreadsheetId] and the two environment
    variables of the credentials, each a string or [undefined]. *)
Record config : Type := Config {
  spreadsheetId : option string;
  GOOGLE_CLIENT_EMAIL : option string;
  GOOGLE_PRIVATE_KEY : option string
}.

(** [Boolean(x)] of a string or [undefined] *)
Definition Boolean (x : option string) : bool :=
  match x with
  | Some s => negb (String.eqb s "")
  | None => false
  end.

Record flags : Type := Flags {
  hasSheetId : bool;
  hasClientEmail : bool;
  hasPrivateKey : bool
}.

Definition flags_of (c : config) : flags :=
  Flags (Boolean (spreadsheetId c)) (Boolean (GOOGLE_CLIENT_EMAIL c))
        (Boolean (GOOGLE_PRIVATE_KEY c)).

(** What [error.message] of the object returned by [validateSheet] stands
    for: one of its own two errors, or an error thrown by a call it made. *)
Inductive cause : Type :=
  | MissingConfiguration    (* 'Missing required Google Sheets configuration' *)
  | NoSheetsFound           (* 'No sheets found in the spreadsheet' *)
  | Thrown (e : error).

(** The object [validateSheet] returns; [vs_lastSync] is absent from the
    object of the error case. *)
Record sheetStatus : Type := SheetStatus {
  vs_status : string;
  vs_config : flags;
  vs_lastSync : option nat;
  vs_error : option cause
}.

Definition status_error (c : config) (why : cause) : sheetStatus :=
  SheetStatus "error" (flags_of c) None (Some why).

Definition validateSheet (c : config) : P sheetStatus := λ p,
  if negb (hasSheetId (flags_of c)) || negb (hasClientEmail (flags_of c))
     || negb (hasPrivateKey (flags_of c))
  then (OK (status_error c MissingConfiguration), p)
  else
    match (if negb (sheets (svc (world_of p))) then initialize p else (OK (), p)) with
    | (Err e, p1) => (OK (status_error c (Thrown e)), p1)
    | (OK _, p1) =>
        match lift await_spreadsheets_get p1 with
        | (Err e, p2) => (OK (status_error c (Thrown e)), p2)
        | (OK [], p2) => (OK (status_error c NoSheetsFound), p2)
        | (OK (_ :: _), p2) =>
            match lift (now ← new_Date; set_lastSyncTime now) p2 with
            | (_, p3) =>
                (OK (SheetStatus "connected" (flags_of c)
                       (lastSyncTime (svc (world_of p3))) None), p3)
            end
        end
    end.

(** The answer of the health route, without the figures of the process
    (time, uptime, memory) and the summary of the credentials: ['healthy']
    with the sheet status and the columns, or ['unhealthy'] with status 500
    and the error. *)
Inductive health : Type :=
  | Healthy (sheetsStatus : sheetStatus) (columns : list value)
  | Unhealthy (e : error).

Definition health_status (h : health) : nat :=
  match h with
  | Healthy _ _ => 200
  | Unhealthy _ => 500
  end.

Definition health_route (c : config) (p : process) : health * process :=
  match validateSheet c p with
  | (Err e, p1) => (Unhealthy e, p1)
  | (OK sheetsStatus, p1) =>
      match lift getColumnHeaders p1 with
      | (Err e, p2) => (Unhealthy e, p2)
      | (OK columnHeaders, p2) => (Healthy sheetsStatus columnHeaders, p2)
      end
  end.

(** What happens to a process: calls of the methods that handle timers, and
    timers firing. *)
Inductive step : Type :=
  | Initialize
  | StartPeriodicSync
  | Cleanup
  | ValidateSheet (c : config)
  | TimerFires (t : nat).

Definition run_step (s : step) (p : process) : process :=
  match s with
  | Initialize => (initialize p).2
  | StartPeriodicSync => (startPeriodicSync p).2
  | Cleanup => (cleanup p).2
  | ValidateSheet c => (validateSheet c p).2
  | TimerFires t => (timer_fires t p).2
  end.

Definition run_steps (steps : list step) (p : process) : process :=
  foldl (λ p s, run_step s p) p steps.

(** A process whose service has just been constructed. *)
Definition fresh_process (rm : remote) (now : nat) : process :=
  Process (World constructed rm now) None ∅ 0.

(** ** The content routes *)

(** [String(v)] of a primitive value. *)
Definition js_String (v : value) : string := toKey v.

(** [s.includes(needle)] *)
Fixpoint includes (s needle : string) : bool :=
  String.prefix needle s ||
  match s with
  | EmptyString => false
  | String _ rest => includes rest needle
  end.

Fixpoint string_drop (n : nat) (s : string) : string :=
  match n, s with
  | S n', String _ rest => string_drop n' rest
  | _, _ => s
  end.

(** [s.replace(pattern, replacement)] for a string pattern (and a replacement
    without dollar signs): the first occurrence only. *)
Fixpoint replace (pattern replacement s : string) : string :=
  if String.prefix pattern s
  then replacement +:+ string_drop (String.length pattern) s
  else match s with
       | EmptyString => EmptyString
       | String c rest => String c (replace pattern replacement rest)
       end.

(** The items the list route serves. *)
Record contentItem : Type := ContentItem {
  item_id : string;
  platform : string;
  topic : string;
  content : string;
  status : string;
  createdAt : value;
  lastFeedback : value;
  lastFeedbackDate : value;
  dateApproved : value;
  approvedBy : value;
  finalApprovalDate : value;
  postScheduledDate : value;
  postedBy : value;
  postLink : value
}.

(** What a route answers: [res.status(code).json(body)]. *)
Record response (B : Type) : Type := Response {
  res_status : nat;
  res_json : B
}.
Arguments Response {B} res_status res_json.
Arguments res_status {B} r.
Arguments res_json {B} r.

(** The bodies [{ error }] and [{ message }]. *)
Inductive reply : Type :=
  | ReplyError (error : string)
  | ReplyMessage (message : string).

Definition statuses : list string :=
  ["Draft"; "In Review"; "Changes Requested"; "Approved"; "Published"]%string.

Section Routes.

(** [new Date(t).toISOString()], and the message of an error thrown by
    the API client or by the runtime. *)
Context (toISOString : nat → string) (thrown_message : string).

(** [error.message] *)
Definition error_message (e : error) : string :=
  match e with
  | ErrNotInitialized => "Sheets service not initialized"
  | ErrNotFound id => "Content with ID " +:+ js_String id +:+ " not found"
  | ErrType | ErrRemote => thrown_message
  end.

(** The mapping of a record to an item, at time [now]. *)
Definition mappedContent (now : nat) (item : gmap string value) : contentItem :=
  let field k := obj_get item k in
  ContentItem
    (js_String (js_or (field "Post ID") (VStr "")))
    (replace "/X" "" (js_String (js_or (field "Platform") (VStr ""))))
    (js_String (js_or (field "Topic") (VStr "")))
    (js_String (js_or (field "Content Text") (VStr "")))
    (js_String (js_or (field "Status") (VStr "Draft")))
    (js_or (field "Date Created") (VStr (toISOString now)))
    (js_or (field "Last Feedback") VNull)
    (js_or (field "Last Feedback Date") VNull)
    (js_or (field "Date Approved") VNull)
    (js_or (field "Approved By") VNull)
    (js_or (field "Final Approval Date") VNull)
    (js_or (field "Post Scheduled Date") VNull)
    (js_or (field "Posted By") VNull)
    (js_or (field "Post Link") VNull).

(** [item.id && item.platform && item.content && [...].includes(item.status)] *)
Definition validContent (item : contentItem) : bool :=
  negb (String.eqb (item_id item) "") && negb (String.eqb (platform item) "")
  && negb (String.eqb (content item) "")
  && bool_decide (status item ∈ statuses).

(** [router.get('/')]: the valid items, or status 500. *)
Definition get_content (w : world) : response (list contentItem + reply) * world :=
  match syncSheet w with
  | (OK rows, w') =>
      (Response 200 (inl (List.filter validContent (mappedContent (clock w') <$> rows))),
       w')
  | (Err _, w') => (Response 500 (inr (ReplyError "Failed to fetch content")), w')
  end.

(** The patch of the status route: the record found, with the new status
    and, as it may be, the feedback and the approval. *)
Definition status_updates (now : nat) (status feedback : value)
    (content : gmap string value) : gmap string value :=
  let updates := <["Status"%string := status]> content in
  let updates :=
    if truthy feedback
    then <["Last Feedback Date"%string := VStr (toISOString now)]>
           (<["Last Feedback"%string := feedback]> updates)
    else updates in
  if strict_eq status (VStr "Approved")
  then <["Approved By"%string := VStr "System"]>
         (<["Date Approved"%string := VStr (toISOString now)]> updates)
  else updates.

(** The body of the [try] block of the status route. *)
Definition update_status (id status feedback : value) : M unit :=
  content ← getContentById id;
  match content with
  | None => throw (ErrNotFound id)
  | Some content =>
      now ← new_Date;
      updateContent id (status_updates now status feedback content);;
      mret ()
  end.

(** [router.post('/status')], for the body [{ id, status, feedback }]. *)
Definition post_status (id status feedback : value) (w : world) : response reply * world :=
  if negb (truthy id) || negb (truthy status)
  then (Response 400 (ReplyError "Missing required fields"), w)
  else
    match update_status id status feedback w with
    | (OK _, w') => (Response 200 (ReplyMessage "Status updated successfully"), w')
    | (Err e, w') =>
        (Response (if includes (error_message e) "not found" then 404 else 500)
                  (ReplyError (if String.eqb (error_message e) ""
                               then "Failed to update status"
                               else error_message e)),
         w')
    end.

End Routes.

(** ** The vocabulary of the properties *)

(** The number of columns a sheet can have (columns A to ZZZ). *)
Definition max_columns : Z := 18278.

(** [r] (0-based) is the first data row of [g] whose identifier cell is [id]. *)
Definition first_match (g : list (list value)) (id : value) (r : nat) : Prop :=
  0 < r ∧
  (∃ row, g !! r = Some row ∧ js_index row 0 = id) ∧
  ∀ j row, 0 < j < r → g !! j = Some row → js_index row 0 ≠ id.

(** No data row of [g] has [id] in its identifier cell. *)
Definition no_match (g : list (list value)) (id : value) : Prop :=
  ∀ j row, 0 < j → g !! j = Some row → js_index row 0 ≠ id.

(** The service is initialised for the tab of the store, and the store can be
    reached. *)
Definition Ready (w : world) : Prop :=
  not_initialized (svc w) = false ∧
  title_text (sheetTitle (svc w)) = title (store w) ∧
  online (store w) = true.

Definition header_row (g : list (list value)) : list value :=
  match g with
  | r :: _ => r
  | [] => []
  end.

(** The schema in force: the cached headers, or row 1 when none is cached. *)
Definition schema (w : world) : list value :=
  match columnHeaders (svc w) with
  | Some hs => hs
  | None => header_row (grid (store w))
  end.

(** The world once the schema is cached. *)
Definition cached (w : world) : world :=
  World (Service (sheets (svc w)) (sheetTitle (svc w)) (Some (schema w))
                 (lastSyncTime (svc w)))
        (store w) (clock w).

(** The world after a sync. *)
Definition synced (w : world) : world :=
  World (Service (sheets (svc w)) (sheetTitle (svc w)) (Some (schema w))
                 (Some (clock w)))
        (store w) (clock w).

(** The world after row [r] (0-based) has been overwritten with [cells]. *)
Definition written (w : world) (r : nat) (cells : list value) : world :=
  World (svc (cached w))
        (Remote (title (store w)) (write_row (grid (store w)) r cells) (online (store w)))
        (clock w).

Definition is_OK {A : Type} (r : result A) : bool :=
  match r with
  | OK _ => true
  | Err _ => false
  end.

(** The cells a range with both row numbers denotes: rows [r1] to [r2],
    columns 1 to the number of its last column. *)
Definition range_cells (rg : range) : option (nat * nat * nat) :=
  match rg with
  | FromA _ (Some r1) c2 (Some r2) =>
      match col_number c2 with
      | Some n => Some (r1, r2, n)
      | None => None
      end
  | _ => None
  end.

(** What is kept of an existing cell: the cell when there is one and it is not
    blank, the empty string otherwise. *)
Definition kept_cell (c : option value) : value :=
  match c with
  | Some v => if truthy v then v else VStr ""
  | None => VStr ""
  end.

(** The field a cell becomes: the cell, or [null] when it is missing or
    blank. *)
Definition field_of_cell (c : option value) : value :=
  match c with
  | Some v => if truthy v then v else VNull
  | None => VNull
  end.

(** The read with which [updateContent] looks for the row. *)
Definition locate_read (w : world) : result (option (list (list value))) :=
  values_get (store w) (locate_range (title_text (sheetTitle (svc w))) (schema w)).

(** The store becomes unreachable. *)
Definition unplug (w : world) : world :=
  World (svc w) (Remote (title (store w)) (grid (store w)) false) (clock w).

(** The timers of a process are in order: a running timer is the one the
    service holds, and the timers still to come are new. *)
Definition timers_ok (p : process) : Prop :=
  (∀ t, t ∈ intervals p → syncInterval p = Some t) ∧
  (∀ t, syncInterval p = Some t → t < next_interval p).

(** The configuration is complete. *)
Definition complete (c : config) : bool :=
  hasSheetId (flags_of c) && hasClientEmail (flags_of c) && hasPrivateKey (flags_of c).

(** The store of a process is replaced, as when it becomes reachable again
    or is changed by another actor. *)
Definition with_store (p : process) (rm : remote) : process :=
  Process (World (svc (world_of p)) rm (clock (world_of p)))
          (syncInterval p) (intervals p) (next_interval p).

Definition full_config : config :=
  Config (Some "sheet-id") (Some "bot@example.org") (Some "key")%string.

(** The fields the status route sets. *)
Definition touched_fields (status feedback : value) : list string :=
  ["Status"%string]
  ++ (if truthy feedback then ["Last Feedback"; "Last Feedback Date"]%string else [])
  ++ (if strict_eq status (VStr "Approved")
      then ["Date Approved"; "Approved By"]%string else []).

(** A column whose name is not that of a member of [Object.prototype]. *)
Definition ordinary (header : value) : Prop := Object_prototype (toKey header) = None.

(** ** Example states *)

Definition example_remote (hs : list value) : remote :=
  Remote "Sheet1"
    [hs; [VStr "a"; VStr "Draft"]; [VStr "b"; VStr "Approved"]] true.

Definition example_world (hs : list value) : world :=
  World (Service true (Some "Sheet1"%string) (Some hs) None) (example_remote hs) 7.

Definition headers_ID : list value := [VStr "ID"; VStr "Status"].
Definition headers_PostID : list value := [VStr "Post ID"; VStr "Status"].
Definition set_Status (v : value) : gmap string value := {[ "Status"%string := v ]}.

Definition empty_sheet_world : world :=
  World (Service true (Some "Sheet1"%string) None None) (Remote "Sheet1" [] true) 0.

Definition headers_27 : list value :=
  VStr <$>
    ["Post ID"; "Platform"; "Topic"; "Content Text"; "Status"; "Last Feedback";
     "Last Feedback Date"; "Date Created"; "Date Approved"; "Approved By";
     "Final Approval Date"; "Post Scheduled Date"; "Posted By"; "Post Link";
     "Campaign"; "Audience"; "Language"; "Author"; "Reviewer"; "Priority";
     "Word Count"; "Image Link"; "Hashtags"; "Region"; "Budget"; "Notes";
     "Archived"]%string.

Definition wide_world : world :=
  World (Service true (Some "Sheet1"%string) (Some headers_27) None)
        (Remote "Sheet1" [headers_27; [VStr "a"; VStr "Draft"]] true) 0.

Definition duplicates_world : world :=
  World (Service true (Some "Sheet1"%string) (Some headers_PostID) None)
        (Remote "Sheet1"
           [headers_PostID; [VStr "a"; VStr "Draft"]; [VStr "b"; VStr "Draft"];
            [VStr "b"; VStr "Approved"]] true) 0.

Definition short_rows_world : world :=
  World (Service true (Some "Sheet1"%string) None None)
        (Remote "Sheet1"
           [headers_PostID; [VStr "a"]; []; [VStr "c"; VStr ""; VStr "extra"]] true) 3.

Definition blank_id_world : world :=
  World (Service true (Some "Sheet1"%string) (Some headers_PostID) None)
        (Remote "Sheet1" [headers_PostID; [VStr ""; VStr "Draft"]] true) 0.

(** Sheets with a column named after a member of [Object.prototype]. *)
Definition headers_proto : list value := [VStr "Post ID"; VStr "__proto__"].
Definition headers_constructor : list value := [VStr "Post ID"; VStr "constructor"].

Definition blank_proto_world : world :=
  World (Service true (Some "Sheet1"%string) (Some headers_proto) None)
        (Remote "Sheet1" [headers_proto; [VStr "a"]; [VStr "b"; VStr ""]] true) 0.

Definition example_iso (t : nat) : string := "2024-05-01T10:00:00.000Z".
Definition example_message : string := "socket hang up".

(** * Properties *)

Ltac run := unfold mbind, M_bind, mret, M_ret, this, throw, new_Date, await_get,
  await_update, set_columnHeaders, set_lastSyncTime; simpl.

(** ** Values and arrays *)

Lemma strict_eq_true (a b : value) : strict_eq a b = true ↔ a = b.
Proof. unfold strict_eq. apply bool_decide_eq_true. Qed.

Lemma strict_eq_false (a b : value) : strict_eq a b = false ↔ a ≠ b.
Proof. unfold strict_eq. apply bool_decide_eq_false. Qed.

Lemma js_or_truthy (a b : value) : truthy a = true → js_or a b = a.
Proof. unfold js_or. by intros ->. Qed.

Lemma js_or_falsy (a b : value) : truthy a = false → js_or a b = b.
Proof. unfold js_or. by intros ->. Qed.

(** [(x || '') || null] is [x || null]. *)
Lemma js_or_empty_null (x : value) :
  js_or (js_or x (VStr "")) VNull = js_or x VNull.
Proof. unfold js_or. by destruct (truthy x) eqn:E; [rewrite E|]. Qed.

Lemma js_or_null_cases (x : value) :
  js_or x VNull = VNull ∨ truthy (js_or x VNull) = true.
Proof. unfold js_or. destruct (truthy x) eqn:E; auto. Qed.

(** Reading a property of a plain object. *)
Lemma obj_get_own (obj : gmap string value) (k : string) (v : value) :
  obj !! k = Some v → obj_get obj k = v.
Proof. intros Hv. unfold obj_get. by rewrite Hv. Qed.

Lemma obj_get_ordinary (obj : gmap string value) (k : string) :
  Object_prototype k = None → obj_get obj k = default VUndef (obj !! k).
Proof. intros Hk. unfold obj_get. rewrite Hk. by destruct (obj !! k). Qed.

Lemma ordinary_not_proto (h : value) : ordinary h → toKey h ≠ "__proto__"%string.
Proof. unfold ordinary. intros Hord Heq. by rewrite Heq in Hord. Qed.

(** Against a truthy identifier, [(x || null) === id] is [x === id]. *)
Lemma strict_eq_or_null (x id : value) :
  truthy id = true → strict_eq (js_or x VNull) id = strict_eq x id.
Proof.
  intros Hid. unfold js_or. destruct (truthy x) eqn:E; [done|].
  transitivity false; [|symmetry]; apply strict_eq_false; intros ?; subst;
    simpl in *; congruence.
Qed.

Lemma js_index_take (n i : nat) (row : list value) :
  i < n → js_index (take n row) i = js_index row i.
Proof. intros H. unfold js_index. by rewrite lookup_take_lt. Qed.

Lemma js_index_app_l (l1 l2 : list value) (i : nat) :
  i < length l1 → js_index (l1 ++ l2) i = js_index l1 i.
Proof. intros H. unfold js_index. by rewrite lookup_app_l. Qed.

Lemma default_present (rows : list (list value)) : default [] (present rows) = rows.
Proof. by destruct rows. Qed.

(** ** Column names *)

(** For 1 to 26 headers [lastCol] is the letter of the last column. *)
Lemma col_number_lastCol (headers : list value) :
  1 ≤ length headers ≤ 26 → col_number (lastCol headers) = Some (length headers).
Proof.
  intros H. unfold lastCol, fromCharCode, col_number, col_number_from.
  rewrite Z.mod_small by lia.
  destruct (_ && _) eqn:E.
  - f_equal. lia.
  - apply andb_false_iff in E as [E|E]; apply N.leb_gt in E; lia.
Qed.

(** Within the width a sheet can have, [lastCol] names a column only for 1 to
    26 headers, and then it names the last one. *)
Lemma col_number_lastCol_inv (headers : list value) (n : nat) :
  (Z.of_nat (length headers) ≤ max_columns)%Z →
  col_number (lastCol headers) = Some n →
  n = length headers ∧ 1 ≤ length headers ≤ 26.
Proof.
  unfold max_columns, lastCol, fromCharCode, col_number, col_number_from.
  intros Hmax. rewrite Z.mod_small by lia.
  destruct (_ && _) eqn:E; [|done].
  apply andb_true_iff in E as [E1 E2].
  apply N.leb_le in E1, E2. intros [= <-]. lia.
Qed.

(** ** Records built from a row *)

Section Items.
Implicit Types (headers row : list value) (item : jsobject).

Lemma assign_other item (k k' : string) (v : value) :
  k ≠ k' → own (assign item k v) !! k' = own item !! k'.
Proof.
  intros Hne. unfold assign. destruct (_ && _).
  - by destruct v.
  - simpl. by rewrite lookup_insert_ne.
Qed.

Lemma assign_ordinary item (k : string) (v : value) :
  k ≠ "__proto__"%string →
  assign item k v = JSObject (<[k := v]> (own item)) (proto_null item).
Proof.
  intros Hne. unfold assign.
  destruct (String.eqb k "__proto__") eqn:E; [|done].
  by apply String.eqb_eq in E.
Qed.

(** The own properties after an assignment: those before, and possibly the
    one assigned. *)
Lemma assign_lookup item (k k' : string) (v v' : value) :
  own (assign item k v) !! k' = Some v' →
  own item !! k' = Some v' ∨ (k = k' ∧ v' = v).
Proof.
  unfold assign. destruct (_ && _).
  - destruct v; auto.
  - simpl. destruct (decide (k = k')) as [->|Hne].
    + rewrite lookup_insert_eq. intros [= <-]. by right.
    + rewrite lookup_insert_ne by done. by left.
Qed.

(** A key that names no header keeps what the object held. *)
Lemma forEach_header_other row index headers item (k : string) :
  k ∉ toKey <$> headers →
  own (forEach_header row index headers item) !! k = own item !! k.
Proof.
  revert index item. induction headers as [|h rest IH]; intros index item Hk; [done|].
  simpl in *. apply not_elem_of_cons in Hk as [Hne Hk].
  rewrite IH by done. by apply assign_other.
Qed.

(** Only the cells under the headers matter. *)
Lemma forEach_header_ext row1 row2 index headers item :
  (∀ j h, headers !! j = Some h →
          js_index row1 (index + j) = js_index row2 (index + j)) →
  forEach_header row1 index headers item = forEach_header row2 index headers item.
Proof.
  revert index item. induction headers as [|h rest IH]; intros index item Hall; [done|].
  simpl. pose proof (Hall 0 h eq_refl) as H0. rewrite Nat.add_0_r in H0.
  rewrite H0. apply IH. intros j h' Hj.
  replace (S index + j) with (index + S j) by lia. by apply (Hall (S j) h').
Qed.

(** Without a header named [__proto__], the keys of the result are those of
    the object and of the headers. *)
Lemma forEach_header_dom row index headers item :
  "__proto__"%string ∉ toKey <$> headers →
  dom (own (forEach_header row index headers item))
  = dom (own item) ∪ list_to_set (toKey <$> headers).
Proof.
  revert index item. induction headers as [|h rest IH]; intros index item Hp; simpl.
  - by rewrite (right_id_L ∅ (∪)).
  - simpl in Hp. apply not_elem_of_cons in Hp as [Hne Hp].
    rewrite IH by done. rewrite assign_ordinary by done. simpl.
    rewrite dom_insert_L.
    by rewrite (comm_L (∪) {[toKey h]} (dom (own item))), (assoc_L (∪)).
Qed.

(** When every column named [k] yields [v], the field [k] holds [v]. *)
Lemma forEach_header_uniform row index headers item (k : string) (v : value) :
  k ≠ "__proto__"%string →
  (∀ j h, headers !! j = Some h → toKey h = k →
          js_or (js_index row (index + j)) VNull = v) →
  own item !! k = Some v ∨ k ∈ toKey <$> headers →
  own (forEach_header row index headers item) !! k = Some v.
Proof.
  intros Hp. revert index item.
  induction headers as [|h rest IH]; intros index item Hall Hin; simpl.
  - destruct Hin as [|Hin]; [done|]. by apply elem_of_nil in Hin.
  - apply IH.
    + intros j h' Hj Hk. replace (S index + j) with (index + S j) by lia.
      by apply (Hall (S j) h').
    + destruct (decide (toKey h = k)) as [Heq|Hne].
      * left. rewrite assign_ordinary by congruence. simpl.
        rewrite <- Heq, lookup_insert_eq. f_equal.
        specialize (Hall 0 h eq_refl Heq). by rewrite Nat.add_0_r in Hall.
      * rewrite assign_other by done.
        destruct Hin as [|Hin]; [by left|right].
        simpl in Hin. apply elem_of_cons in Hin as [|]; [congruence|done].
Qed.

(** Two rows that agree (up to [|| null]) on the columns named [k] give the
    same field [k]. *)
Lemma forEach_header_agree row1 row2 index headers item1 item2 (k : string) :
  k ≠ "__proto__"%string →
  (∀ j h, headers !! j = Some h → toKey h = k →
          js_or (js_index row1 (index + j)) VNull
          = js_or (js_index row2 (index + j)) VNull) →
  own item1 !! k = own item2 !! k →
  own (forEach_header row1 index headers item1) !! k
  = own (forEach_header row2 index headers item2) !! k.
Proof.
  intros Hp. revert index item1 item2.
  induction headers as [|h rest IH]; intros index item1 item2 Hall Hit; simpl; [done|].
  apply IH.
  - intros j h' Hj Hk. replace (S index + j) with (index + S j) by lia.
    by apply (Hall (S j) h').
  - destruct (decide (toKey h = k)) as [Heq|Hne].
    + rewrite !assign_ordinary by congruence. simpl.
      rewrite <- Heq, !lookup_insert_eq. f_equal.
      specialize (Hall 0 h eq_refl Heq). by rewrite Nat.add_0_r in Hall.
    + by rewrite !assign_other.
Qed.

(** Every field value is some cell of the row passed through [|| null]. *)
Lemma forEach_header_value row index headers item (k : string) (v : value) :
  own (forEach_header row index headers item) !! k = Some v →
  own item !! k = Some v ∨
  ∃ j h, headers !! j = Some h ∧ toKey h = k ∧
         v = js_or (js_index row (index + j)) VNull.
Proof.
  revert index item. induction headers as [|h rest IH]; intros index item Hv; simpl in *.
  - by left.
  - apply IH in Hv as [Hv|(j & h' & Hj & Hk & ->)].
    + apply assign_lookup in Hv as [Hv|[Heq ->]]; [by left|].
      right. exists 0, h. by rewrite Nat.add_0_r.
    + right. exists (S j), h'. replace (index + S j) with (S index + j) by lia. done.
Qed.

Lemma row_to_item_dom headers row :
  "__proto__"%string ∉ toKey <$> headers →
  dom (row_to_item headers row) = list_to_set (toKey <$> headers).
Proof.
  intros Hp. unfold row_to_item. rewrite forEach_header_dom by done. simpl.
  by rewrite dom_empty_L, (left_id_L ∅ (∪)).
Qed.

(** With distinct column names, the field named after column [i] holds
    [row[i] || null], unless the name is [__proto__]. *)
Lemma row_to_item_lookup headers row (i : nat) (h : value) :
  NoDup (toKey <$> headers) →
  headers !! i = Some h →
  toKey h ≠ "__proto__"%string →
  row_to_item headers row !! toKey h = Some (js_or (js_index row i) VNull).
Proof.
  intros Hnd Hi Hp. unfold row_to_item. apply forEach_header_uniform; [done| |].
  - intros j h' Hj Hk. simpl.
    assert (j = i) as ->; [|done].
    eapply NoDup_lookup; [exact Hnd| |]; rewrite list_lookup_fmap.
    + by rewrite Hj.
    + by rewrite Hi, Hk.
  - right. apply list_elem_of_fmap. exists h. split; [done|].
    by eapply list_elem_of_lookup_2.
Qed.

(** Cells to the right of the headers play no part. *)
Lemma row_to_item_take headers row :
  row_to_item headers (take (length headers) row) = row_to_item headers row.
Proof.
  unfold row_to_item. f_equal. apply forEach_header_ext.
  intros j h Hj. simpl. rewrite js_index_take; [done|].
  by eapply lookup_lt_Some.
Qed.

(** No field of a record is falsy unless it is [null]. *)
Lemma row_to_item_null_or_truthy headers row (k : string) (v : value) :
  row_to_item headers row !! k = Some v → v = VNull ∨ truthy v = true.
Proof.
  intros Hv. apply forEach_header_value in Hv as [Hv|(j & h & _ & _ & ->)]; [done|].
  apply js_or_null_cases.
Qed.
End Items.

(** ** Locating a row *)

Lemma findIndex_from_Some (p : list value → nat → bool) (index : nat)
    (rows : list (list value)) (r : nat) :
  findIndex_from p index rows = Some r ↔
  ∃ j row, r = index + j ∧ rows !! j = Some row ∧ p row r = true ∧
           ∀ i row', i < j → rows !! i = Some row' → p row' (index + i) = false.
Proof.
  revert index. induction rows as [|row rest IH]; intros index; simpl.
  - split; [done|]. by intros (j & row & _ & ? & _).
  - destruct (p row index) eqn:E.
    + split.
      * intros [= <-]. exists 0, row. rewrite Nat.add_0_r. repeat split; [done|]. lia.
      * intros (j & row' & -> & Hj & Hp & Hlt). destruct j as [|j]; [f_equal; lia|].
        specialize (Hlt 0 row ltac:(lia) eq_refl). rewrite Nat.add_0_r in Hlt. congruence.
    + rewrite IH. split.
      * intros (j & row' & -> & Hj & Hp & Hlt). exists (S j), row'.
        replace (index + S j) with (S index + j) by lia. repeat split; [done..|].
        intros [|i] row'' Hi Hrow; simpl in Hrow.
        -- rewrite Nat.add_0_r. congruence.
        -- replace (index + S i) with (S index + i) by lia. apply (Hlt i); [lia|done].
      * intros (j & row' & -> & Hj & Hp & Hlt). destruct j as [|j].
        -- simpl in Hj. rewrite Nat.add_0_r in Hp. congruence.
        -- exists j, row'. replace (S index + j) with (index + S j) by lia.
           repeat split; [done..|]. intros i row'' Hi Hrow.
           replace (S index + i) with (index + S i) by lia. apply (Hlt (S i)); [lia|done].
Qed.

Lemma findIndex_from_None (p : list value → nat → bool) (index : nat)
    (rows : list (list value)) :
  findIndex_from p index rows = None ↔
  ∀ i row, rows !! i = Some row → p row (index + i) = false.
Proof.
  revert index. induction rows as [|row rest IH]; intros index; simpl.
  - split; [|done]. by intros _ i row.
  - destruct (p row index) eqn:E.
    + split; [done|]. intros H. specialize (H 0 row eq_refl).
      rewrite Nat.add_0_r in H. congruence.
    + rewrite IH. split.
      * intros H [|i] row' Hi; simpl in Hi.
        -- rewrite Nat.add_0_r. congruence.
        -- replace (index + S i) with (S index + i) by lia. by apply H.
      * intros H i row' Hi. replace (S index + i) with (index + S i) by lia.
        by apply (H (S i)).
Qed.

(** The rows as [updateContent] reads them: each row cut to [n] columns. *)
Lemma findIndex_first_match (g : list (list value)) (n : nat) (id : value) (r : nat) :
  1 ≤ n →
  findIndex (is_target id) (take n <$> g) = Some r ↔ first_match g id r.
Proof.
  intros Hn. unfold findIndex, first_match, is_target. rewrite findIndex_from_Some. split.
  - intros (j & row & -> & Hj & Hp & Hlt). simpl in *.
    apply andb_true_iff in Hp as [Hpos Heq].
    apply Nat.ltb_lt in Hpos. apply strict_eq_true in Heq.
    rewrite list_lookup_fmap in Hj.
    destruct (g !! j) as [row0|] eqn:Hg; [|done]. injection Hj as <-.
    rewrite js_index_take in Heq by lia.
    split; [done|]. split; [by exists row0|].
    intros i row' Hi Hrow Habs.
    specialize (Hlt i (take n row')). rewrite list_lookup_fmap, Hrow in Hlt.
    specialize (Hlt ltac:(lia) eq_refl).
    apply andb_false_iff in Hlt as [Hlt|Hlt].
    + apply Nat.ltb_ge in Hlt. lia.
    + apply strict_eq_false in Hlt. rewrite js_index_take in Hlt by lia. done.
  - intros (Hpos & (row & Hr & Heq) & Hlt).
    exists r, (take n row). simpl. rewrite list_lookup_fmap, Hr. repeat split.
    + apply andb_true_iff. split; [by apply Nat.ltb_lt|].
      apply strict_eq_true. by rewrite js_index_take by lia.
    + intros i row' Hi Hrow. rewrite list_lookup_fmap in Hrow.
      destruct (g !! i) as [row0|] eqn:Hg; [|done]. injection Hrow as <-.
      destruct i as [|i]; [done|]. simpl.
      apply strict_eq_false. rewrite js_index_take by lia.
      apply (Hlt (S i)); [lia|done].
Qed.

Lemma findIndex_no_match (g : list (list value)) (n : nat) (id : value) :
  1 ≤ n →
  findIndex (is_target id) (take n <$> g) = None ↔ no_match g id.
Proof.
  intros Hn. unfold findIndex, no_match, is_target. rewrite findIndex_from_None. split.
  - intros H j row Hpos Hj Habs.
    specialize (H j (take n row)). rewrite list_lookup_fmap, Hj in H.
    specialize (H eq_refl). simpl in H.
    apply andb_false_iff in H as [H|H].
    + apply Nat.ltb_ge in H. lia.
    + apply strict_eq_false in H. rewrite js_index_take in H by lia. done.
  - intros H i row Hi. simpl. rewrite list_lookup_fmap in Hi.
    destruct (g !! i) as [row0|] eqn:Hg; [|done]. injection Hi as <-.
    destruct i as [|i]; [done|]. simpl.
    apply strict_eq_false. rewrite js_index_take by lia.
    apply (H (S i)); [lia|done].
Qed.

(** There is at most one first match. *)
Lemma first_match_unique (g : list (list value)) (id : value) (r1 r2 : nat) :
  first_match g id r1 → first_match g id r2 → r1 = r2.
Proof.
  intros (Hp1 & (row1 & Hr1 & He1) & Hl1) (Hp2 & (row2 & Hr2 & He2) & Hl2).
  destruct (Nat.lt_trichotomy r1 r2) as [H|[H|H]]; [|done|].
  - by destruct (Hl2 r1 row1).
  - by destruct (Hl1 r2 row2).
Qed.

(** ** Running the methods *)

Lemma Ready_sheets (w : world) : Ready w → sheets (svc w) = true.
Proof.
  intros (Hinit & _). unfold not_initialized in Hinit.
  apply orb_false_iff in Hinit as [H _]. by apply negb_false_iff in H.
Qed.

Lemma String_eqb_refl_neg (t : string) : negb (String.eqb t t) = false.
Proof. by rewrite String.eqb_refl. Qed.

Lemma first_row_header (g : list (list value)) :
  first_row (present (take 1 (drop 0 g))) = header_row g.
Proof. by destruct g. Qed.

Lemma loadColumnHeaders_ready (w : world) :
  Ready w →
  loadColumnHeaders w =
    (OK (header_row (grid (store w))),
     World (Service (sheets (svc w)) (sheetTitle (svc w))
                    (Some (header_row (grid (store w)))) (lastSyncTime (svc w)))
           (store w) (clock w)).
Proof.
  intros HR. pose proof (Ready_sheets w HR) as Hs. destruct HR as (_ & Ht & Hon).
  unfold loadColumnHeaders. run. rewrite Hs. simpl.
  unfold values_get, header_range. rewrite Hon, Ht, String_eqb_refl_neg. simpl.
  by rewrite first_row_header, Hs.
Qed.

Lemma getColumnHeaders_ready (w : world) :
  Ready w → getColumnHeaders w = (OK (schema w), cached w).
Proof.
  intros HR. unfold getColumnHeaders, schema, cached. run.
  destruct (columnHeaders (svc w)) as [hs|] eqn:E.
  - unfold schema. rewrite E. by destruct w as [[] ? ?]; simpl in *; subst.
  - rewrite loadColumnHeaders_ready by done. unfold schema. by rewrite E.
Qed.

Lemma Ready_cached (w : world) : Ready w → Ready (cached w).
Proof. by intros (? & ? & ?). Qed.

(** A sync of a ready service with 1 to 26 headers returns one record per
    data row. *)
(** The three calls on a range whose last column parses as column [n]. *)
Lemma values_get_sync_n (rm : remote) (t : string) (headers : list value) (n : nat) :
  online rm = true → t = title rm → col_number (lastCol headers) = Some n →
  values_get rm (sync_range t headers) = OK (present (take n <$> drop 1 (grid rm))).
Proof.
  intros Hon -> Hn. unfold values_get, sync_range.
  by rewrite Hon, String_eqb_refl_neg, Hn.
Qed.

Lemma values_get_locate_n (rm : remote) (t : string) (headers : list value) (n : nat) :
  online rm = true → t = title rm → col_number (lastCol headers) = Some n →
  values_get rm (locate_range t headers) = OK (present (take n <$> grid rm)).
Proof.
  intros Hon -> Hn. unfold values_get, locate_range.
  by rewrite Hon, String_eqb_refl_neg, Hn.
Qed.

Lemma values_update_write_n (rm : remote) (t : string) (headers cells : list value)
    (r n : nat) :
  online rm = true → t = title rm → col_number (lastCol headers) = Some n →
  values_update rm (write_range t headers r) [cells]
  = if length cells <=? n
    then OK (Remote (title rm) (write_row (grid rm) r cells) (online rm))
    else Err ErrRemote.
Proof.
  intros Hon -> Hn. unfold values_update, write_range.
  rewrite Hon, String_eqb_refl_neg, Hn.
  replace (r + 1 - 1) with r by lia. cbn [negb forallb write_rows].
  replace (1 <=? r + 1) with true by (symmetry; apply Nat.leb_le; lia).
  replace (length [cells] <=? r + 1 + 1 - (r + 1)) with true
    by (symmetry; apply Nat.leb_le; simpl; lia).
  by destruct (length cells <=? n).
Qed.

Lemma values_get_sync (rm : remote) (t : string) (headers : list value) :
  online rm = true → t = title rm → 1 ≤ length headers ≤ 26 →
  values_get rm (sync_range t headers)
  = OK (present (take (length headers) <$> drop 1 (grid rm))).
Proof.
  intros Hon -> Hn. unfold values_get, sync_range.
  by rewrite Hon, String_eqb_refl_neg, col_number_lastCol.
Qed.

Lemma syncSheet_ready (w : world) :
  Ready w → 1 ≤ length (schema w) ≤ 26 →
  syncSheet w = (OK (row_to_item (schema w) <$> drop 1 (grid (store w))), synced w).
Proof.
  intros HR Hn. unfold syncSheet. run.
  destruct HR as (Hinit & Ht & Hon) eqn:HReq. rewrite Hinit.
  rewrite getColumnHeaders_ready by done. simpl.
  rewrite values_get_sync by done. simpl.
  rewrite default_present. unfold synced. f_equal. f_equal.
  rewrite <- list_fmap_compose. apply list_fmap_ext.
  intros i row _. simpl. apply row_to_item_take.
Qed.

Lemma newRowData_length (headers : list value) (updates : gmap string value)
    (existingData : list value) :
  length (newRowData headers updates existingData) = length headers.
Proof. unfold newRowData. apply length_imap. Qed.

Lemma newRowData_lookup (headers : list value) (updates : gmap string value)
    (existingData : list value) (i : nat) (h : value) :
  headers !! i = Some h →
  js_index (newRowData headers updates existingData) i =
    if negb (strict_eq (obj_get updates (toKey h)) VUndef)
    then obj_get updates (toKey h)
    else js_or (js_index existingData i) (VStr "").
Proof.
  intros Hi. unfold js_index at 1, newRowData. by rewrite list_lookup_imap, Hi.
Qed.

(** Cells to the right of the headers play no part in the new row. *)
Lemma newRowData_take (headers : list value) (updates : gmap string value)
    (existingData : list value) (n : nat) :
  length headers ≤ n →
  newRowData headers updates (take n existingData)
  = newRowData headers updates existingData.
Proof.
  intros Hn. unfold newRowData. apply imap_ext. intros i h Hi. simpl.
  rewrite js_index_take; [done|]. apply lookup_lt_Some in Hi. lia.
Qed.

Lemma values_get_locate (rm : remote) (t : string) (headers : list value) :
  online rm = true → t = title rm → 1 ≤ length headers ≤ 26 →
  values_get rm (locate_range t headers)
  = OK (present (take (length headers) <$> grid rm)).
Proof.
  intros Hon -> Hn. unfold values_get, locate_range.
  by rewrite Hon, String_eqb_refl_neg, col_number_lastCol.
Qed.

Lemma values_update_write (rm : remote) (t : string) (headers cells : list value)
    (r : nat) :
  online rm = true → t = title rm → 1 ≤ length headers ≤ 26 →
  length cells = length headers →
  values_update rm (write_range t headers r) [cells]
  = OK (Remote (title rm) (write_row (grid rm) r cells) (online rm)).
Proof.
  intros Hon Ht Hn Hlen.
  rewrite (values_update_write_n _ _ _ _ _ (length headers))
    by auto using col_number_lastCol.
  by rewrite Hlen, Nat.leb_refl.
Qed.

(** An update of a ready service with 1 to 26 headers overwrites the first
    data row whose identifier cell is [id]. *)
Lemma updateContent_found (w : world) (id : value) (updates : gmap string value)
    (r : nat) (old : list value) :
  Ready w → 1 ≤ length (schema w) ≤ 26 →
  first_match (grid (store w)) id r → grid (store w) !! r = Some old →
  updateContent id updates w =
    (OK true, written w r (newRowData (schema w) updates old)).
Proof.
  intros HR Hn Hfirst Hold. unfold updateContent. run.
  destruct HR as (Hinit & Ht & Hon) eqn:HReq. rewrite Hinit.
  rewrite getColumnHeaders_ready by done. simpl.
  rewrite values_get_locate by done. simpl. rewrite default_present.
  apply (findIndex_first_match _ (length (schema w))) in Hfirst; [|lia].
  rewrite Hfirst. rewrite list_lookup_fmap, Hold. simpl.
  rewrite newRowData_take by done.
  rewrite values_update_write; [done..|]. apply newRowData_length.
Qed.

(** Without such a row it throws the not-found error and writes nothing. *)
Lemma updateContent_not_found (w : world) (id : value) (updates : gmap string value) :
  Ready w → 1 ≤ length (schema w) ≤ 26 →
  no_match (grid (store w)) id →
  updateContent id updates w = (Err (ErrNotFound id), cached w).
Proof.
  intros HR Hn Hno. unfold updateContent. run.
  destruct HR as (Hinit & Ht & Hon) eqn:HReq. rewrite Hinit.
  rewrite getColumnHeaders_ready by done. simpl.
  rewrite values_get_locate by done. simpl. rewrite default_present.
  apply (findIndex_no_match _ (length (schema w))) in Hno; [|lia].
  by rewrite Hno.
Qed.

(** ** What a call can do, whatever the state *)

Lemma col_number_lastCol_pos (headers : list value) (n : nat) :
  col_number (lastCol headers) = Some n → 1 ≤ n ≤ 26.
Proof.
  unfold lastCol, fromCharCode, col_number, col_number_from.
  destruct (_ && _) eqn:E; [|done].
  apply andb_true_iff in E as [E1 E2]. apply N.leb_le in E1, E2.
  intros [= <-]. lia.
Qed.

Lemma values_get_FromA_OK (rm : remote) (t : string) (r1 r2 : option nat)
    (c2 : colname) (values : option (list (list value))) :
  values_get rm (FromA t r1 c2 r2) = OK values →
  online rm = true ∧ t = title rm ∧ ∃ n, col_number c2 = Some n.
Proof.
  unfold values_get. destruct (online rm); [|done]. simpl.
  destruct (String.eqb t (title rm)) eqn:Et; [|done]. simpl.
  apply String.eqb_eq in Et.
  destruct (col_number c2) as [n|]; [|done]. intros _. eauto.
Qed.

Lemma getColumnHeaders_cases (w : world) :
  getColumnHeaders w = (OK (schema w), cached w) ∨
  ∃ e, getColumnHeaders w = (Err e, w).
Proof.
  unfold getColumnHeaders, schema, cached. run.
  destruct (columnHeaders (svc w)) as [hs|] eqn:E.
  - left. unfold schema. rewrite E. by destruct w as [[] ? ?]; simpl in *; subst.
  - unfold loadColumnHeaders. run.
    destruct (sheets (svc w)) eqn:Hs; simpl; [|by right; eexists].
    unfold values_get, header_range.
    destruct (online (store w)); simpl; [|by right; eexists].
    destruct (String.eqb _ _); simpl; [|by right; eexists].
    left. unfold schema. by rewrite E, first_row_header, Hs.
Qed.

(** The outcomes of a sync: all the records, or an error. *)
Lemma syncSheet_cases (w : world) :
  (∃ n, Ready w ∧ col_number (lastCol (schema w)) = Some n ∧
        syncSheet w =
          (OK (row_to_item (schema w) <$> (take n <$> drop 1 (grid (store w)))),
           synced w)) ∨
  (∃ e, syncSheet w = (Err e, w) ∨ syncSheet w = (Err e, cached w)).
Proof.
  unfold syncSheet. run.
  destruct (not_initialized (svc w)) eqn:Hinit; [right; eexists; by left|].
  destruct (getColumnHeaders_cases w) as [->|[e ->]]; [|right; eexists; by left].
  simpl.
  destruct (values_get _ _) as [values|e] eqn:Hget; [|right; eexists; by right].
  left. pose proof Hget as Hget'.
  apply values_get_FromA_OK in Hget' as (Hon & Ht & n & Hn). exists n.
  split; [done|]. split; [done|].
  rewrite (values_get_sync_n _ _ _ n) in Hget by done. injection Hget as <-.
  by rewrite default_present.
Qed.

Lemma write_row_existing (g : list (list value)) (r : nat) (cells old : list value) :
  g !! r = Some old → write_row g r cells = <[r := cells ++ drop (length cells) old]> g.
Proof. unfold write_row. by intros ->. Qed.

(** The outcomes of an update: the first matching data row is overwritten, or
    an error is thrown and nothing is written. *)
Lemma updateContent_cases (w : world) (id : value) (updates : gmap string value) :
  (∃ r old, Ready w ∧ first_match (grid (store w)) id r ∧
            grid (store w) !! r = Some old ∧
            updateContent id updates w =
              (OK true, written w r (newRowData (schema w) updates old))) ∨
  (∃ e, updateContent id updates w = (Err e, w) ∨
        updateContent id updates w = (Err e, cached w)).
Proof.
  unfold updateContent. run.
  destruct (not_initialized (svc w)) eqn:Hinit; [right; eexists; by left|].
  destruct (getColumnHeaders_cases w) as [->|[e ->]]; [|right; eexists; by left].
  simpl.
  destruct (values_get _ _) as [values|e] eqn:Hget; [|right; eexists; by right].
  pose proof Hget as Hget'.
  apply values_get_FromA_OK in Hget' as (Hon & Ht & n & Hn).
  pose proof (col_number_lastCol_pos _ _ Hn) as Hpos.
  rewrite (values_get_locate_n _ _ _ n) in Hget by done. injection Hget as <-.
  rewrite default_present.
  destruct (findIndex _ _) as [r|] eqn:Hfind; [|right; eexists; by right].
  apply findIndex_first_match in Hfind; [|lia].
  pose proof Hfind as (_ & (old & Hold & _) & _).
  rewrite list_lookup_fmap, Hold. simpl.
  destruct (values_update _ _ _) as [rm|e] eqn:Hupd; [|right; eexists; by right].
  left. exists r, old. split; [done|]. split; [done|]. split; [done|].
  rewrite (values_update_write_n _ _ _ _ _ n) in Hupd by done.
  destruct (_ <=? _) eqn:Hfit; [|done]. injection Hupd as <-.
  apply Nat.leb_le in Hfit. rewrite newRowData_length in Hfit.
  by rewrite newRowData_take by done.
Qed.

(** An update never changes the length of the sheet nor any row but the first
    match. *)
Lemma updateContent_frame (w : world) (id : value) (updates : gmap string value)
    (j : nat) :
  (∀ r, first_match (grid (store w)) id r → j ≠ r) →
  grid (store (updateContent id updates w).2) !! j = grid (store w) !! j.
Proof.
  intros Hj.
  destruct (updateContent_cases w id updates)
    as [(r & old & _ & Hfirst & Hold & ->)|[e [-> | ->]]]; [|done..].
  simpl. rewrite (write_row_existing _ _ _ old) by done.
  apply list_lookup_insert_ne. intros Heq. by apply (Hj r).
Qed.

Lemma updateContent_error_store (w : world) (id : value) (updates : gmap string value)
    (e : error) (w' : world) :
  updateContent id updates w = (Err e, w') → store w' = store w.
Proof.
  intros H.
  destruct (updateContent_cases w id updates)
    as [(r & old & _ & _ & _ & H')|[e' [H' | H']]];
    rewrite H' in H; by simplify_eq.
Qed.

(** ** The worked example of the design document *)

(** C2 (as stated).  With the header row [ID, Status] the lookup of ["b"]
    finds nothing: [getContentById] compares the field named ['Post ID'],
    which no record of that sheet has, so the result is [undefined] and not
    the record of row [b]. *)
Lemma getById_ID_schema_finds_nothing :
  (getContentById (VStr "b") (example_world headers_ID)).1 = OK None ∧
  (getContentById (VStr "b") (example_world headers_ID)).1
    ≠ OK (Some (<["ID"%string := VStr "b"]> (set_Status (VStr "Approved")))).
Proof. split; [by vm_compute|]. vm_compute. discriminate. Qed.

(** C2 (amended).  With the header row [Post ID, Status] and the data rows
    [a, Draft] and [b, Approved], [getContentById("b")] returns the record
    of row [b]; [updateContent("b", {Status: "Published"})] succeeds, leaves
    the sheet with row [b] equal to [b, Published] and row [a] as it was, and
    a new sync returns the two records in that state. *)
Theorem example_getById_update_resync :
  (getContentById (VStr "b") (example_world headers_PostID)).1
    = OK (Some (<["Post ID"%string := VStr "b"]> (set_Status (VStr "Approved")))) ∧
  let after := updateContent (VStr "b") (set_Status (VStr "Published"))
                 (example_world headers_PostID) in
  after.1 = OK true ∧
  grid (store after.2) =
    [headers_PostID; [VStr "a"; VStr "Draft"]; [VStr "b"; VStr "Published"]] ∧
  (syncSheet after.2).1 =
    OK [<["Post ID"%string := VStr "a"]> (set_Status (VStr "Draft"));
        <["Post ID"%string := VStr "b"]> (set_Status (VStr "Published"))].
Proof. repeat split; by vm_compute. Qed.

(** ** Loading the schema *)

(** C3 (as stated).  On a reachable sheet whose row 1 is empty, loading the
    schema does not fail: it returns the empty column list. *)
Lemma loadColumnHeaders_empty_sheet_returns :
  (loadColumnHeaders empty_sheet_world).1 = OK [] ∧
  is_OK (loadColumnHeaders empty_sheet_world).1 = true.
Proof. split; by vm_compute. Qed.

(** C3 (amended).  If the header row (row 1) of the sheet is empty, loading
    the schema of an initialised service from a reachable store succeeds: it
    returns the empty column list and caches it as the schema. *)
Theorem loadColumnHeaders_empty_row (w : world) :
  Ready w →
  header_row (grid (store w)) = [] →
  (loadColumnHeaders w).1 = OK [] ∧
  columnHeaders (svc (loadColumnHeaders w).2) = Some [] ∧
  store (loadColumnHeaders w).2 = store w.
Proof.
  intros HR Hrow. rewrite loadColumnHeaders_ready by done. simpl.
  by rewrite Hrow.
Qed.

Lemma loadColumnHeaders_empty_row_witness :
  (loadColumnHeaders empty_sheet_world).1 = OK [] ∧
  columnHeaders (svc (loadColumnHeaders empty_sheet_world).2) = Some [] ∧
  store (loadColumnHeaders empty_sheet_world).2 = store empty_sheet_world.
Proof.
  apply (loadColumnHeaders_empty_row empty_sheet_world).
  - repeat split; reflexivity.
  - reflexivity.
Defined.

(** ** The range of the write *)

(** For 1 to 26 headers the write covers row [rowIndex + 1] alone, columns 1
    to the number of headers. *)
Lemma write_range_cells (t : string) (headers : list value) (rowIndex : nat) :
  1 ≤ length headers ≤ 26 →
  range_cells (write_range t headers rowIndex)
  = Some (rowIndex + 1, rowIndex + 1, length headers).
Proof. intros Hn. unfold range_cells, write_range. by rewrite col_number_lastCol. Qed.

(** C7.  For a schema of 27 columns the last column of the range is the
    character with code 91 (an opening bracket), which names no column: the
    range of the write denotes no cells rather than columns 1 to 27 of the
    located row, and the update of an existing record fails on its remote
    call without writing. *)
Theorem write_range_27_columns :
  length headers_27 = 27 ∧
  lastCol headers_27 = [91%N] ∧
  write_range "Sheet1" headers_27 1 = FromA "Sheet1" (Some 2) [91%N] (Some 2) ∧
  range_cells (write_range "Sheet1" headers_27 1) = None ∧
  first_match (grid (store wide_world)) (VStr "a") 1 ∧
  updateContent (VStr "a") (set_Status (VStr "Approved")) wide_world
    = (Err ErrRemote, wide_world).
Proof.
  repeat split; try by vm_compute.
  - by exists [VStr "a"; VStr "Draft"].
  - intros j row Hj. lia.
Qed.

(** ** The row an update builds *)

Lemma js_or_kept_cell (row : list value) (i : nat) :
  js_or (js_index row i) (VStr "") = kept_cell (row !! i).
Proof. unfold js_or, js_index, kept_cell. by destruct (row !! i). Qed.

Lemma kept_cell_string (s : string) : kept_cell (Some (VStr s)) = VStr s.
Proof.
  unfold kept_cell, truthy. destruct (String.eqb s "") eqn:E; [|done].
  apply String.eqb_eq in E. by subst.
Qed.

Lemma newRowData_ext (headers : list value) (u1 u2 : gmap string value)
    (existingData : list value) :
  (∀ h, h ∈ headers → obj_get u1 (toKey h) = obj_get u2 (toKey h)) →
  newRowData headers u1 existingData = newRowData headers u2 existingData.
Proof.
  intros Hagree. unfold newRowData. apply imap_ext. intros i h Hi. simpl.
  rewrite (Hagree h); [done|]. by eapply list_elem_of_lookup_2.
Qed.

(** X23.  The row built by an update has one cell per schema column.  The
    cell of a column is the own value of the patch under the column's name
    when there is one other than [undefined] (an explicit [null] or empty
    string is taken as it is); when [updates[header]] is [undefined], it is
    the existing cell of the row just read, or the empty string when that
    cell is missing or blank.  A key of the patch that names no schema column
    changes nothing in the row. *)
Theorem newRowData_cells (headers : list value) (updates : gmap string value)
    (existingData : list value) :
  length (newRowData headers updates existingData) = length headers ∧
  (∀ i h, headers !! i = Some h →
     let cell := newRowData headers updates existingData !! i in
     (∀ v, updates !! toKey h = Some v → v ≠ VUndef → cell = Some v) ∧
     (updates !! toKey h = Some VNull → cell = Some VNull) ∧
     (updates !! toKey h = Some (VStr "") → cell = Some (VStr "")) ∧
     (obj_get updates (toKey h) = VUndef →
        cell = Some (kept_cell (existingData !! i)) ∧
        (∀ s, existingData !! i = Some (VStr s) → cell = Some (VStr s)) ∧
        (existingData !! i = None → cell = Some (VStr "")))) ∧
  (∀ k v, k ∉ toKey <$> headers →
     newRowData headers (<[k := v]> updates) existingData
     = newRowData headers updates existingData).
Proof.
  split; [apply newRowData_length|]. split.
  - intros i h Hi cell.
    assert (Hcell : cell = Some
              (if negb (strict_eq (obj_get updates (toKey h)) VUndef)
               then obj_get updates (toKey h)
               else kept_cell (existingData !! i))).
    { unfold cell, newRowData. by rewrite list_lookup_imap, Hi, js_or_kept_cell. }
    assert (Hsupplied : ∀ v, updates !! toKey h = Some v → v ≠ VUndef → cell = Some v).
    { intros v Hv Hne. rewrite Hcell. unfold obj_get. rewrite Hv. simpl.
      by apply strict_eq_false in Hne as ->. }
    split; [done|]. split; [by intros H; apply Hsupplied|].
    split; [by intros H; apply Hsupplied|].
    intros Hundef. rewrite Hcell, Hundef. simpl.
    split; [done|]. split.
    + intros s ->. by rewrite kept_cell_string.
    + by intros ->.
  - intros k v Hk. apply newRowData_ext. intros h Hh. unfold obj_get.
    rewrite lookup_insert_ne; [done|]. intros ->. apply Hk.
    by apply list_elem_of_fmap_2.
Qed.

Lemma newRowData_cells_witness :
  newRowData headers_PostID
    (<["Colour"%string := VStr "red"]> (set_Status VNull))
    [VStr "b"; VStr "Approved"] !! 1 = Some VNull ∧
  newRowData headers_PostID (set_Status VNull) [VStr "b"; VStr "Approved"] !! 0
    = Some (VStr "b").
Proof.
  pose proof (newRowData_cells headers_PostID (set_Status VNull)
                [VStr "b"; VStr "Approved"]) as (_ & Hcells & Hframe).
  split.
  - rewrite (Hframe "Colour"%string (VStr "red")).
    + apply (Hcells 1 (VStr "Status")); reflexivity.
    + vm_compute. intros H.
      repeat (apply elem_of_cons in H as [H|H]; [discriminate|]).
      by apply elem_of_nil in H.
  - apply (Hcells 0 (VStr "Post ID") eq_refl); reflexivity.
Defined.

(** C8 (the code at a column named like a member of [Object.prototype]).
    With the header row [Post ID, constructor], the existing row [b, kept]
    and the patch [{Status: "Published"}], the caller supplied no key
    [constructor]; yet [updates["constructor"]] is the function [Object],
    inherited from [Object.prototype], which is not [undefined]: the cell
    built for the column is that function, not the existing cell [kept].
    With the header row [Post ID, __proto__] the cell built is
    [Object.prototype] itself. *)
Theorem newRowData_inherited_member :
  let updates := set_Status (VStr "Published") in
  let existingData := [VStr "b"; VStr "kept"] in
  updates !! "constructor"%string = None ∧
  obj_get updates "constructor" = VBuiltin (NativeFunction "Object") ∧
  newRowData headers_constructor updates existingData
    = [VStr "b"; VBuiltin (NativeFunction "Object")] ∧
  newRowData headers_constructor updates existingData !! 1 ≠ existingData !! 1 ∧
  updates !! "__proto__"%string = None ∧
  newRowData headers_proto updates existingData
    = [VStr "b"; VBuiltin ObjectPrototype] ∧
  newRowData headers_proto updates existingData !! 1 ≠ existingData !! 1.
Proof. repeat split; by vm_compute. Qed.

(** ** Updating a record *)


Lemma locate_read_ready (w : world) :
  Ready w → 1 ≤ length (schema w) ≤ 26 → is_OK (locate_read w) = true.
Proof.
  intros (_ & Ht & Hon) Hn. unfold locate_read. by rewrite values_get_locate.
Qed.



(** C9.  When [r] is the first data row whose first cell is [id] (whatever
    later rows hold, the same identifier included), [updateContent] changes
    no other row and keeps the number of rows; and when the service is
    initialised, the store reachable and the schema 1 to 26 columns wide, it
    succeeds and row [r] becomes the rebuilt row (followed by the cells of the
    old row that lie to the right of the schema). *)
Theorem updateContent_first_row_only (w : world) (id : value)
    (updates : gmap string value) (r : nat) :
  first_match (grid (store w)) id r →
  let g' := grid (store (updateContent id updates w).2) in
  length g' = length (grid (store w)) ∧
  (∀ j, j ≠ r → g' !! j = grid (store w) !! j) ∧
  (∀ j row, r < j → grid (store w) !! j = Some row → js_index row 0 = id →
            g' !! j = Some row) ∧
  (Ready w → 1 ≤ length (schema w) ≤ 26 →
   (updateContent id updates w).1 = OK true ∧
   ∃ old, grid (store w) !! r = Some old ∧
          g' !! r = Some (newRowData (schema w) updates old
                          ++ drop (length (schema w)) old)).
Proof.
  intros Hfirst g'.
  assert (Hframe : ∀ j, j ≠ r → g' !! j = grid (store w) !! j).
  { intros j Hj. apply updateContent_frame. intros r' Hr'.
    by rewrite (first_match_unique _ _ _ _ Hr' Hfirst). }
  split; [|split; [done|split]].
  - unfold g'. destruct (updateContent_cases w id updates)
      as [(r' & old & _ & _ & Hold & ->)|[e [-> | ->]]]; [|done..].
    simpl. rewrite (write_row_existing _ _ _ old) by done. apply length_insert.
  - intros j row Hj Hrow _. rewrite Hframe by lia. done.
  - intros HR Hn. pose proof Hfirst as (_ & (old & Hold & _) & _).
    unfold g'. rewrite (updateContent_found w id updates r old) by done.
    split; [done|]. exists old. split; [done|]. simpl.
    rewrite (write_row_existing _ _ _ old) by done.
    rewrite newRowData_length. apply list_lookup_insert_eq.
    by eapply lookup_lt_Some.
Qed.

Lemma updateContent_first_row_only_witness :
  grid (store (updateContent (VStr "b") (set_Status (VStr "Published"))
                 duplicates_world).2) !! 3 = Some [VStr "b"; VStr "Approved"] ∧
  grid (store (updateContent (VStr "b") (set_Status (VStr "Published"))
                 duplicates_world).2) !! 2 = Some [VStr "b"; VStr "Published"].
Proof.
  assert (Hfirst : first_match (grid (store duplicates_world)) (VStr "b") 2).
  { split; [lia|]. split; [by exists [VStr "b"; VStr "Draft"]|].
    intros [|[|j]] row Hj Hrow; [lia| |lia].
    simpl in Hrow. injection Hrow as <-. discriminate. }
  destruct (updateContent_first_row_only duplicates_world (VStr "b")
              (set_Status (VStr "Published")) 2 Hfirst) as (_ & _ & Hlater & Hrow).
  split.
  - apply Hlater; [lia|reflexivity|reflexivity].
  - destruct Hrow as (_ & old & Hold & ->).
    + repeat split; reflexivity.
    + simpl. lia.
    + simpl in Hold. injection Hold as <-. reflexivity.
Defined.

(** ** Syncing *)

Lemma js_or_field_of_cell (row : list value) (i : nat) :
  js_or (js_index row i) VNull = field_of_cell (row !! i).
Proof. unfold js_or, js_index, field_of_cell. by destruct (row !! i). Qed.

(** A sync that returns has read the rows through a range as wide as the
    schema, provided the schema fits in a sheet. *)
Lemma syncSheet_OK (w : world) (recs : list (gmap string value)) (w' : world) :
  syncSheet w = (OK recs, w') →
  (Z.of_nat (length (schema w)) ≤ max_columns)%Z →
  Ready w ∧ 1 ≤ length (schema w) ≤ 26 ∧
  recs = row_to_item (schema w) <$> drop 1 (grid (store w)) ∧ w' = synced w.
Proof.
  intros Hrun Hmax.
  destruct (syncSheet_cases w) as [(n & HR & Hn & Hrun')|[e [Hrun' | Hrun']]];
    rewrite Hrun' in Hrun; [|done..].
  apply col_number_lastCol_inv in Hn as [-> Hlen]; [|done].
  rewrite syncSheet_ready in Hrun' by done. by simplify_eq.
Qed.

(** X22.  A sync of an initialised service on a reachable store with a schema
    of 1 to 26 columns returns, whatever the length of the rows.  After a
    sync that returned: there is one record per row after the header row, in
    the order of the rows; when no column is named [__proto__], the fields of
    each record are the schema's columns; and, the column names being
    distinct, the field named after column [i], if that name is not
    [__proto__], holds the cell at position [i] of the row, or [null] when
    that cell is missing or blank. *)
Theorem syncSheet_records (w : world) :
  (Ready w → 1 ≤ length (schema w) ≤ 26 → is_OK (syncSheet w).1 = true) ∧
  (∀ recs w',
     syncSheet w = (OK recs, w') →
     (Z.of_nat (length (schema w)) ≤ max_columns)%Z →
     length recs = length (grid (store w)) - 1 ∧
     ∀ j row, grid (store w) !! S j = Some row →
       ∃ rec, recs !! j = Some rec ∧
              ("__proto__"%string ∉ toKey <$> schema w →
               dom rec = list_to_set (toKey <$> schema w)) ∧
              (NoDup (toKey <$> schema w) →
               ∀ i h, schema w !! i = Some h → toKey h ≠ "__proto__"%string →
                      rec !! toKey h = Some (field_of_cell (row !! i)))).
Proof.
  split.
  - intros HR Hn. by rewrite syncSheet_ready.
  - intros recs w' Hrun Hmax.
    apply syncSheet_OK in Hrun as (_ & _ & -> & _); [|done]. split.
    + by rewrite length_fmap, length_drop.
    + intros j row Hrow. exists (row_to_item (schema w) row).
      rewrite list_lookup_fmap, lookup_drop. simpl. rewrite Hrow.
      split; [done|]. split; [apply row_to_item_dom|].
      intros Hnd i h Hi Hp. rewrite <- js_or_field_of_cell.
      by apply row_to_item_lookup.
Qed.

Lemma syncSheet_records_witness :
  is_OK (syncSheet short_rows_world).1 = true ∧
  ∃ recs rec, (syncSheet short_rows_world).1 = OK recs ∧
    length recs = 3 ∧ recs !! 0 = Some rec ∧
    rec !! "Post ID"%string = Some (VStr "a") ∧ rec !! "Status"%string = Some VNull.
Proof.
  destruct (syncSheet_records short_rows_world) as [Hok Hrecs].
  split.
  - apply Hok; [repeat split; reflexivity|simpl; lia].
  - destruct (syncSheet short_rows_world) as [[recs|e] w'] eqn:Hrun; [|discriminate Hok;
      [repeat split; reflexivity|simpl; lia]].
    destruct (Hrecs recs w' eq_refl) as [Hlen Hrows].
    + vm_compute. discriminate.
    + destruct (Hrows 0 [VStr "a"] eq_refl) as (rec & Hrec & _ & Hfields).
      assert (Hnd : NoDup (toKey <$> schema short_rows_world)).
      { vm_compute. repeat constructor; intros H;
          repeat (apply elem_of_cons in H as [H|H]; [discriminate|]);
          by apply elem_of_nil in H. }
      exists recs, rec. repeat split; [exact Hlen|exact Hrec|..].
      * exact (Hfields Hnd 0 (VStr "Post ID") eq_refl ltac:(discriminate)).
      * exact (Hfields Hnd 1 (VStr "Status") eq_refl ltac:(discriminate)).
Defined.

(** C5 (the code at a column named [__proto__]).  With the header row
    [Post ID, __proto__] and the data rows [a, Draft] and [b, Approved], a
    sync returns two records whose only field is [Post ID]: the assignment
    [item["__proto__"] = "Draft"] runs the setter of [Object.prototype], which
    ignores a string, so the records have no field for the second schema
    column and the cells [Draft] and [Approved] appear in no record. *)
Theorem syncSheet_proto_column :
  let w := example_world headers_proto in
  schema w = headers_proto ∧
  drop 1 (grid (store w)) = [[VStr "a"; VStr "Draft"]; [VStr "b"; VStr "Approved"]] ∧
  (syncSheet w).1 = OK [ {[ "Post ID"%string := VStr "a" ]};
                         {[ "Post ID"%string := VStr "b" ]} ] ∧
  ∀ row, row ∈ drop 1 (grid (store w)) →
    row_to_item (schema w) row !! "__proto__"%string = None ∧
    dom (row_to_item (schema w) row) ≠ list_to_set (toKey <$> schema w).
Proof.
  split; [done|]. split; [done|]. split; [by vm_compute|].
  intros row Hrow.
  assert (Hdom : ∀ rec : gmap string value,
            rec !! "__proto__"%string = None →
            dom rec ≠ list_to_set (toKey <$> headers_proto)).
  { intros rec Hnone Hdom.
    assert (Hin : "__proto__"%string ∈ dom rec).
    { rewrite Hdom. apply elem_of_list_to_set. simpl.
      apply elem_of_cons. right. apply elem_of_cons. by left. }
    apply elem_of_dom in Hin as [v Hv]. congruence. }
  simpl in Hrow.
  apply elem_of_cons in Hrow as [->|Hrow];
    [|apply elem_of_cons in Hrow as [->|Hrow]; [|by apply elem_of_nil in Hrow]].
  - split; [by vm_compute|]. apply Hdom. by vm_compute.
  - split; [by vm_compute|]. apply Hdom. by vm_compute.
Qed.

(** C6 (amended).  The service keeps no snapshot: [listRecords] is a fresh
    sync.  A sync that throws leaves the last-sync time and the sheet as they
    were; a sync that returns sets the last-sync time to the current time and
    returns a record for every data row; there is no outcome in between. *)
Theorem syncSheet_all_or_nothing (w : world) :
  listRecords w = syncSheet w ∧
  match syncSheet w with
  | (Err e, w') =>
      lastSyncTime (svc w') = lastSyncTime (svc w) ∧ store w' = store w
  | (OK recs, w') =>
      lastSyncTime (svc w') = Some (clock w) ∧ store w' = store w ∧
      length recs = length (grid (store w)) - 1
  end.
Proof.
  split; [done|].
  destruct (syncSheet_cases w) as [(n & _ & _ & ->)|[e [-> | ->]]]; [|done..].
  repeat split. by rewrite !length_fmap, length_drop.
Qed.

(** C6 (as stated).  After a sync that completed with two records, the store
    becomes unreachable and a sync fails with a remote error; [listRecords]
    then does not give the records of the completed sync: it fails as well. *)
Lemma listRecords_after_failed_sync :
  let completed := syncSheet (example_world headers_PostID) in
  let failed := syncSheet (unplug completed.2) in
  ∃ recs, completed.1 = OK recs ∧ length recs = 2 ∧
          failed.1 = Err ErrRemote ∧
          (listRecords failed.2).1 = Err ErrRemote ∧
          (listRecords failed.2).1 ≠ OK recs.
Proof. eexists. repeat split; try by vm_compute. Qed.

(** ** Reading back an update *)

Section ReadBack.
Context (headers : list value) (updates : gmap string value).
Context (old rest : list value).

(** A field the patch supplies reads back as the supplied value, or as
    [null] when that value is blank. *)
Lemma updated_item_patched (k : string) :
  k ≠ "__proto__"%string →
  k ∈ toKey <$> headers → obj_get updates k ≠ VUndef →
  row_to_item headers (newRowData headers updates old ++ rest) !! k
  = Some (js_or (obj_get updates k) VNull).
Proof.
  intros Hp Hk Hsup. unfold row_to_item. apply forEach_header_uniform; [done| |by right].
  intros j h Hj <-. simpl.
  rewrite js_index_app_l
    by (rewrite newRowData_length; by eapply lookup_lt_Some).
  rewrite (newRowData_lookup _ _ _ _ h) by done.
  by apply strict_eq_false in Hsup as ->.
Qed.

(** A field the patch does not supply reads back as before. *)
Lemma updated_item_kept (k : string) :
  k ≠ "__proto__"%string →
  obj_get updates k = VUndef →
  row_to_item headers (newRowData headers updates old ++ rest) !! k
  = row_to_item headers old !! k.
Proof.
  intros Hp Hundef. unfold row_to_item. apply forEach_header_agree; [done| |done].
  intros j h Hj <-. simpl.
  rewrite js_index_app_l
    by (rewrite newRowData_length; by eapply lookup_lt_Some).
  rewrite (newRowData_lookup _ _ _ _ h) by done.
  rewrite Hundef. simpl. apply js_or_empty_null.
Qed.
End ReadBack.

Lemma Ready_written (w : world) (r : nat) (cells : list value) :
  Ready w → Ready (written w r cells).
Proof. by intros (? & ? & ?). Qed.

Lemma schema_written (w : world) (r : nat) (cells : list value) :
  schema (written w r cells) = schema w.
Proof. done. Qed.

Lemma schema_synced (w : world) : schema (synced w) = schema w.
Proof. done. Qed.

Lemma Ready_synced (w : world) : Ready w → Ready (synced w).
Proof. by intros (? & ? & ?). Qed.

(** The sync that follows an update of row [r]. *)
Lemma syncSheet_after_update (w : world) (id : value) (updates : gmap string value)
    (r : nat) (old : list value) :
  Ready w → 1 ≤ length (schema w) ≤ 26 →
  first_match (grid (store w)) id r → grid (store w) !! r = Some old →
  let new := newRowData (schema w) updates old in
  let w1 := written w r new in
  updateContent id updates w = (OK true, w1) ∧
  grid (store w1) = <[r := new ++ drop (length (schema w)) old]> (grid (store w)) ∧
  syncSheet w1 =
    (OK (row_to_item (schema w) <$> drop 1 (grid (store w1))), synced w1) ∧
  (row_to_item (schema w) <$> drop 1 (grid (store w1))) !! (r - 1)
  = Some (row_to_item (schema w) (new ++ drop (length (schema w)) old)).
Proof.
  intros HR Hn Hfirst Hold new w1.
  assert (Hgrid : grid (store w1)
                  = <[r := new ++ drop (length (schema w)) old]> (grid (store w))).
  { unfold w1, written. simpl. rewrite (write_row_existing _ _ _ old) by done.
    unfold new. by rewrite newRowData_length. }
  split; [by apply updateContent_found|]. split; [done|]. split.
  - rewrite syncSheet_ready; [done|by apply Ready_written|done].
  - destruct Hfirst as (Hpos & _). rewrite list_lookup_fmap, lookup_drop.
    replace (1 + (r - 1)) with r by lia. rewrite Hgrid.
    rewrite list_lookup_insert_eq by (by eapply lookup_lt_Some). done.
Qed.

(** X24.  No record returned by a sync, and so none returned by
    [getContentById] or [listRecords], has the empty string as a field value:
    every field is [null] or a truthy value; under distinct column names, a
    blank or otherwise falsy cell of a column not named [__proto__] becomes
    [null].  Hence a field of such a column that an update writes as the empty
    string reads back as [null] in the next sync. *)
Theorem records_have_no_empty_string :
  (∀ w recs w' rec k v,
     syncSheet w = (OK recs, w') ∨ listRecords w = (OK recs, w') →
     rec ∈ recs → rec !! k = Some v →
     v ≠ VStr "" ∧ (v = VNull ∨ truthy v = true)) ∧
  (∀ w id rec w' k v,
     getContentById id w = (OK (Some rec), w') → rec !! k = Some v →
     v ≠ VStr "" ∧ (v = VNull ∨ truthy v = true)) ∧
  (∀ headers row i h,
     NoDup (toKey <$> headers) → headers !! i = Some h →
     toKey h ≠ "__proto__"%string →
     truthy (js_index row i) = false →
     row_to_item headers row !! toKey h = Some VNull) ∧
  (∀ w id updates r h,
     Ready w → 1 ≤ length (schema w) ≤ 26 →
     first_match (grid (store w)) id r →
     h ∈ schema w → toKey h ≠ "__proto__"%string →
     updates !! toKey h = Some (VStr "") →
     ∃ w1 recs w2 rec,
       updateContent id updates w = (OK true, w1) ∧
       syncSheet w1 = (OK recs, w2) ∧
       recs !! (r - 1) = Some rec ∧
       rec !! toKey h = Some VNull).
Proof.
  assert (Hitem : ∀ headers row k v,
            row_to_item headers row !! k = Some v →
            v ≠ VStr "" ∧ (v = VNull ∨ truthy v = true)).
  { intros headers row k v Hv. apply row_to_item_null_or_truthy in Hv.
    split; [|done]. intros ->. by destruct Hv. }
  assert (Hsync : ∀ w recs w' rec,
            syncSheet w = (OK recs, w') → rec ∈ recs →
            ∃ row, rec = row_to_item (schema w) row).
  { intros w recs w' rec Hrun Hrec.
    destruct (syncSheet_cases w) as [(n & _ & _ & Hrun')|[e [Hrun' | Hrun']]];
      rewrite Hrun' in Hrun; [|done..].
    injection Hrun as <- _.
    apply list_elem_of_fmap in Hrec as (row & -> & _). by exists row. }
  split; [|split; [|split]].
  - intros w recs w' rec k v Hrun Hrec Hv.
    assert (Hrun' : syncSheet w = (OK recs, w')) by by destruct Hrun.
    destruct (Hsync _ _ _ _ Hrun' Hrec) as [row ->]. by eapply Hitem.
  - intros w id rec w' k v Hrun Hv. unfold getContentById in Hrun. revert Hrun. run.
    destruct (syncSheet w) as [[recs|e] w1] eqn:Hrun'; [|done].
    intros [= Hfind <-]. apply find_some in Hfind as [Hin _].
    apply list_elem_of_In in Hin.
    destruct (Hsync _ _ _ _ Hrun' Hin) as [row ->]. by eapply Hitem.
  - intros headers row i h Hnd Hi Hp Hfalsy.
    rewrite (row_to_item_lookup _ _ i) by done. by rewrite js_or_falsy.
  - intros w id updates r h HR Hn Hfirst Hh Hp Hupd.
    pose proof Hfirst as (_ & (old & Hold & _) & _).
    destruct (syncSheet_after_update w id updates r old HR Hn Hfirst Hold)
      as (Hrun & _ & Hsync' & Hrec).
    eexists _, _, _, _. split; [exact Hrun|]. split; [exact Hsync'|].
    split; [exact Hrec|].
    rewrite updated_item_patched.
    + unfold obj_get. by rewrite Hupd.
    + done.
    + by apply list_elem_of_fmap_2.
    + unfold obj_get. by rewrite Hupd.
Qed.

Lemma records_have_no_empty_string_witness :
  ∃ w1 recs w2 rec,
    updateContent (VStr "b") (set_Status (VStr "")) (example_world headers_PostID)
      = (OK true, w1) ∧
    syncSheet w1 = (OK recs, w2) ∧
    recs !! 1 = Some rec ∧ rec !! "Status"%string = Some VNull.
Proof.
  destruct records_have_no_empty_string as (_ & _ & _ & Hback).
  apply (Hback (example_world headers_PostID) (VStr "b") (set_Status (VStr "")) 2
           (VStr "Status")).
  - repeat split; reflexivity.
  - simpl. lia.
  - split; [lia|]. split; [by exists [VStr "b"; VStr "Approved"]|].
    intros [|[|j]] row Hj Hrow; [lia| |lia].
    simpl in Hrow. injection Hrow as <-. discriminate.
  - apply list_elem_of_In. simpl. auto.
  - discriminate.
  - reflexivity.
Defined.

(** C10 (the code at a column named [__proto__]).  With the header row
    [Post ID, __proto__] and the data rows [a] and [b, ""], the cell under
    [__proto__] is missing in the first row and blank in the second.  The
    assignment [item["__proto__"] = null] does not create a field holding
    [null]: it clears the prototype of the record, whose only field is
    [Post ID].  Likewise, after [updateContent("b", patch)] with a patch whose
    own key [__proto__] holds the empty string has written the empty string
    into the cell, the next sync returns a record for row [b] that has no
    field [__proto__], so the written field does not read back as [null]. *)
Theorem blank_proto_cell_is_no_field :
  schema blank_proto_world = headers_proto ∧
  drop 1 (grid (store blank_proto_world)) = [[VStr "a"]; [VStr "b"; VStr ""]] ∧
  (syncSheet blank_proto_world).1
    = OK [ {[ "Post ID"%string := VStr "a" ]}; {[ "Post ID"%string := VStr "b" ]} ] ∧
  forEach_header [VStr "a"] 0 headers_proto (JSObject ∅ false)
    = JSObject {[ "Post ID"%string := VStr "a" ]} true ∧
  forEach_header [VStr "b"; VStr ""] 0 headers_proto (JSObject ∅ false)
    = JSObject {[ "Post ID"%string := VStr "b" ]} true ∧
  let after := updateContent (VStr "b") {[ "__proto__"%string := VStr "" ]}
                 (example_world headers_proto) in
  after.1 = OK true ∧
  grid (store after.2) = [headers_proto; [VStr "a"; VStr "Draft"]; [VStr "b"; VStr ""]] ∧
  (syncSheet after.2).1
    = OK [ {[ "Post ID"%string := VStr "a" ]}; {[ "Post ID"%string := VStr "b" ]} ] ∧
  ∀ rec : gmap string value,
    rec ∈ [ ({[ "Post ID"%string := VStr "a" ]} : gmap string value);
            {[ "Post ID"%string := VStr "b" ]} ] →
    rec !! "__proto__"%string ≠ Some VNull.
Proof.
  do 7 (split; [by vm_compute|]). split; [by vm_compute|].
  intros rec Hrec.
  apply elem_of_cons in Hrec as [->|Hrec];
    [|apply elem_of_cons in Hrec as [->|Hrec]; [|by apply elem_of_nil in Hrec]];
    by vm_compute.
Qed.

(** ** Looking a record up *)

Lemma find_first {A : Type} (p : A → bool) (l : list A) (i : nat) (x : A) :
  l !! i = Some x → p x = true →
  (∀ j y, j < i → l !! j = Some y → p y = false) →
  List.find p l = Some x.
Proof.
  revert i. induction l as [|a l IH]; intros i Hi Hp Hlt; [done|].
  destruct i as [|i]; simpl in *.
  - injection Hi as ->. by rewrite Hp.
  - rewrite (Hlt 0 a) by (done || lia). apply (IH i); [done..|].
    intros j y Hj Hy. apply (Hlt (S j)); [lia|done].
Qed.

(** When the first column, and it alone, is named ['Post ID'], the field
    ['Post ID'] of a record is the identifier cell of its row. *)
Lemma row_to_item_Post_ID (h0 : value) (rest row : list value) :
  toKey h0 = "Post ID"%string → "Post ID"%string ∉ toKey <$> rest →
  obj_get (row_to_item (h0 :: rest) row) "Post ID" = js_or (js_index row 0) VNull.
Proof.
  intros Hk Hrest. unfold obj_get, row_to_item. simpl.
  rewrite forEach_header_other by done.
  rewrite assign_ordinary by (by rewrite Hk). simpl.
  by rewrite Hk, lookup_insert_eq.
Qed.

Lemma first_match_exists (g : list (list value)) (id : value) (j : nat)
    (row : list value) :
  0 < j → g !! j = Some row → js_index row 0 = id → ∃ r, first_match g id r.
Proof.
  intros Hj Hrow Hid.
  destruct (findIndex (is_target id) (take 1 <$> g)) as [r|] eqn:E.
  - exists r. by apply (findIndex_first_match g 1).
  - apply (findIndex_no_match g 1) in E; [|done]. by destruct (E j row).
Qed.

Lemma first_match_insert (g : list (list value)) (id : value) (r : nat)
    (row' : list value) :
  first_match g id r → js_index row' 0 = id → first_match (<[r := row']> g) id r.
Proof.
  intros (Hpos & (old & Hold & _) & Hlt) Hid. split; [done|]. split.
  - exists row'. split; [|done]. apply list_lookup_insert_eq. by eapply lookup_lt_Some.
  - intros j row Hj Hrow. rewrite list_lookup_insert_ne in Hrow by lia.
    by apply (Hlt j).
Qed.

(** [getContentById] returns the record of the first data row whose
    identifier cell is the (non-blank) [id]. *)
Lemma getContentById_found (w : world) (id h0 : value) (rest : list value)
    (r : nat) (old : list value) :
  Ready w → 1 ≤ length (schema w) ≤ 26 →
  schema w = h0 :: rest → toKey h0 = "Post ID"%string →
  "Post ID"%string ∉ toKey <$> rest →
  truthy id = true →
  first_match (grid (store w)) id r → grid (store w) !! r = Some old →
  getContentById id w = (OK (Some (row_to_item (schema w) old)), synced w).
Proof.
  intros HR Hn Hs Hk Hrest Hid (Hpos & (old' & Hold' & Hmatch) & Hlt) Hold.
  assert (old' = old) as -> by congruence.
  unfold getContentById. run. rewrite syncSheet_ready by done. f_equal. f_equal.
  apply (find_first _ _ (r - 1)).
  - rewrite list_lookup_fmap, lookup_drop. replace (1 + (r - 1)) with r by lia.
    by rewrite Hold.
  - rewrite Hs, row_to_item_Post_ID, strict_eq_or_null by done.
    by apply strict_eq_true.
  - intros j item Hj Hitem. rewrite list_lookup_fmap, lookup_drop in Hitem.
    destruct (grid (store w) !! (1 + j)) as [row|] eqn:Hrow; [|done].
    injection Hitem as <-.
    rewrite Hs, row_to_item_Post_ID, strict_eq_or_null by done.
    apply strict_eq_false. apply (Hlt (1 + j)); [lia|done].
Qed.

(** ** Update, then look up *)

(** C1 (as stated).  With the header row [Post ID, Status] and the row
    [b, Approved], [updateContent("b", {Status: ""})] succeeds, and the
    lookup of ["b"] that follows shows the field [Status] as [null], not as
    the patched value, the empty string. *)
Lemma update_blank_then_getById :
  let updated := updateContent (VStr "b") (set_Status (VStr ""))
                   (example_world headers_PostID) in
  updated.1 = OK true ∧
  ∃ rec, (getContentById (VStr "b") updated.2).1 = OK (Some rec) ∧
         rec !! "Status"%string = Some VNull ∧
         rec !! "Status"%string ≠ set_Status (VStr "") !! "Status"%string.
Proof. split; [by vm_compute|]. eexists. repeat split; by vm_compute. Qed.

(** C1 (amended).  For an initialised service on a reachable store, a schema
    of 1 to 26 columns whose first column, and no other, is named ['Post ID']
    and none of whose columns is named like a member of [Object.prototype],
    a non-blank identifier [id], a data row whose identifier cell is [id], and
    a patch that leaves ['Post ID'] out or sets it to [id]: [getContentById],
    [updateContent] and [getContentById] again all succeed, and in the record
    found after the update every schema field supplied by the patch holds the
    patched value, or [null] when the patched value is blank, and every
    schema field the patch does not supply holds what it held in the record
    found before the update. *)
Theorem update_then_getById (w : world) (id : value) (updates : gmap string value)
    (h0 : value) (rest : list value) (j : nat) (row : list value) :
  Ready w → 1 ≤ length (schema w) ≤ 26 →
  schema w = h0 :: rest → toKey h0 = "Post ID"%string →
  "Post ID"%string ∉ toKey <$> rest →
  Forall ordinary (schema w) →
  truthy id = true →
  0 < j → grid (store w) !! j = Some row → js_index row 0 = id →
  obj_get updates "Post ID" = VUndef ∨ obj_get updates "Post ID" = id →
  ∃ before w1 w2 after w3,
    getContentById id w = (OK (Some before), w1) ∧
    updateContent id updates w1 = (OK true, w2) ∧
    getContentById id w2 = (OK (Some after), w3) ∧
    ∀ h, h ∈ schema w →
      let patched := default VUndef (updates !! toKey h) in
      (patched ≠ VUndef → after !! toKey h = Some (field_of_cell (Some patched))) ∧
      (patched ≠ VUndef → truthy patched = true → after !! toKey h = Some patched) ∧
      (patched = VUndef → after !! toKey h = before !! toKey h).
Proof.
  intros HR Hn Hs Hk Hrest Hord Hid Hj Hrow Hcell Hpatch.
  destruct (first_match_exists _ _ _ _ Hj Hrow Hcell) as [r Hfirst].
  pose proof Hfirst as (Hpos & (old & Hold & Hold0) & _).
  set (n := length (schema w)).
  set (new := newRowData (schema w) updates old).
  assert (Hnew0 : js_index (new ++ drop n old) 0 = id).
  { rewrite js_index_app_l
      by (unfold new; rewrite newRowData_length; lia).
    unfold new. rewrite (newRowData_lookup _ _ _ _ h0) by (by rewrite Hs).
    rewrite Hk. destruct Hpatch as [-> | Hp]; simpl.
    - rewrite Hold0. by apply js_or_truthy.
    - rewrite Hp. destruct (strict_eq id VUndef) eqn:E; simpl; [|done].
      apply strict_eq_true in E. by rewrite E in Hid. }
  destruct (syncSheet_after_update (synced w) id updates r old)
    as (Hupd & Hgrid & _ & _); [by apply Ready_synced|done..|].
  rewrite schema_synced in Hupd, Hgrid. fold n new in Hupd, Hgrid.
  set (w2 := written (synced w) r new) in *.
  exists (row_to_item (schema w) old), (synced w), w2,
         (row_to_item (schema w) (new ++ drop n old)), (synced w2).
  split; [by eapply getContentById_found|]. split; [done|]. split.
  - change (schema w) with (schema w2).
    apply (getContentById_found w2 id h0 rest r (new ++ drop n old));
      [|done|done|done|done|done| |].
    + unfold w2. by apply Ready_written, Ready_synced.
    + rewrite Hgrid. by apply first_match_insert.
    + rewrite Hgrid. apply list_lookup_insert_eq. by eapply lookup_lt_Some.
  - intros h Hh patched.
    assert (Hin : toKey h ∈ toKey <$> schema w) by by apply list_elem_of_fmap_2.
    assert (Hordh : ordinary h) by (by eapply Forall_forall in Hord).
    assert (Hp : toKey h ≠ "__proto__"%string) by by apply ordinary_not_proto.
    assert (Hget : obj_get updates (toKey h) = patched) by by apply obj_get_ordinary.
    assert (Hsup : patched ≠ VUndef →
                   row_to_item (schema w) (new ++ drop n old) !! toKey h
                   = Some (js_or patched VNull)).
    { intros Hne. rewrite <- Hget in Hne |- *. by apply updated_item_patched. }
    split; [|split].
    + intros Hne. by rewrite Hsup.
    + intros Hne Htr. by rewrite Hsup, js_or_truthy.
    + intros Hundef. apply updated_item_kept; [done|]. by rewrite Hget.
Qed.

Lemma update_then_getById_witness :
  ∃ before w1 w2 after w3,
    getContentById (VStr "b") (example_world headers_PostID)
      = (OK (Some before), w1) ∧
    updateContent (VStr "b") (set_Status (VStr "Published")) w1 = (OK true, w2) ∧
    getContentById (VStr "b") w2 = (OK (Some after), w3) ∧
    after !! "Status"%string = Some (VStr "Published") ∧
    after !! "Post ID"%string = before !! "Post ID"%string.
Proof.
  destruct (update_then_getById (example_world headers_PostID) (VStr "b")
              (set_Status (VStr "Published")) (VStr "Post ID") [VStr "Status"]
              2 [VStr "b"; VStr "Approved"])
    as (before & w1 & w2 & after & w3 & Hget & Hupd & Hget' & Hfields).
  - repeat split; reflexivity.
  - simpl. lia.
  - reflexivity.
  - reflexivity.
  - simpl. intros H. apply elem_of_cons in H as [H|H]; [discriminate|].
    by apply elem_of_nil in H.
  - repeat constructor.
  - reflexivity.
  - lia.
  - reflexivity.
  - reflexivity.
  - left. reflexivity.
  - exists before, w1, w2, after, w3.
    split; [exact Hget|]. split; [exact Hupd|]. split; [exact Hget'|]. split.
    + apply (Hfields (VStr "Status")); [|discriminate|reflexivity].
      apply list_elem_of_In. simpl. auto.
    + apply (Hfields (VStr "Post ID")); [|reflexivity].
      apply list_elem_of_In. simpl. auto.
Defined.

(** * Further properties of the service *)

(** ** What the reading methods leave alone *)

Lemma loadColumnHeaders_cases (w : world) :
  loadColumnHeaders w =
    (OK (header_row (grid (store w))),
     World (Service (sheets (svc w)) (sheetTitle (svc w))
                    (Some (header_row (grid (store w)))) (lastSyncTime (svc w)))
           (store w) (clock w)) ∨
  ∃ e, loadColumnHeaders w = (Err e, w).
Proof.
  unfold loadColumnHeaders. run.
  destruct (sheets (svc w)) eqn:Hs; simpl; [|by right; eexists].
  unfold values_get, header_range.
  destruct (online (store w)); simpl; [|by right; eexists].
  destruct (String.eqb _ _); simpl; [|by right; eexists].
  left. by rewrite first_row_header, Hs.
Qed.

Lemma getContentById_cases (w : world) (id : value) :
  (∃ recs, syncSheet w = (OK recs, synced w) ∧
           getContentById id w =
             (OK (List.find (λ item, strict_eq (obj_get item "Post ID") id) recs),
              synced w)) ∨
  (∃ e, getContentById id w = (Err e, w) ∨ getContentById id w = (Err e, cached w)).
Proof.
  unfold getContentById. run.
  destruct (syncSheet_cases w) as [(n & _ & _ & ->)|[e [-> | ->]]].
  - left. by eexists.
  - right. exists e. by left.
  - right. exists e. by right.
Qed.

(** X1.  The reading methods never write: whether they return or throw,
    [loadColumnHeaders], [getColumnHeaders], [syncSheet] and
    [getContentById] leave the store and the clock as they were, and the
    service still addresses the same tab with the same client. *)
Theorem reads_leave_store (w : world) (id : value) :
  let same (w' : world) :=
    store w' = store w ∧ clock w' = clock w ∧
    sheets (svc w') = sheets (svc w) ∧ sheetTitle (svc w') = sheetTitle (svc w) in
  same (loadColumnHeaders w).2 ∧ same (getColumnHeaders w).2 ∧
  same (syncSheet w).2 ∧ same (getContentById id w).2.
Proof.
  intros same. repeat split.
  all: try (destruct (loadColumnHeaders_cases w) as [->|[e ->]]; done).
  all: try (destruct (getColumnHeaders_cases w) as [->|[e ->]]; done).
  all: try (destruct (syncSheet_cases w) as [(n & _ & _ & ->)|[e [-> | ->]]]; done).
  all: destruct (getContentById_cases w id)
         as [(recs & _ & ->)|[e [-> | ->]]]; done.
Qed.

(** X2.  An update, whether it succeeds or throws, keeps the number of
    rows, never touches the header row, keeps in every row the cells to the
    right of the schema's columns, and leaves the last-sync time, the clock
    and the tab as they were. *)
Theorem updateContent_keeps (w : world) (id : value) (updates : gmap string value) :
  let w' := (updateContent id updates w).2 in
  length (grid (store w')) = length (grid (store w)) ∧
  grid (store w') !! 0 = grid (store w) !! 0 ∧
  (∀ j row, grid (store w) !! j = Some row →
     ∃ row', grid (store w') !! j = Some row' ∧
             drop (length (schema w)) row' = drop (length (schema w)) row) ∧
  title (store w') = title (store w) ∧ online (store w') = online (store w) ∧
  lastSyncTime (svc w') = lastSyncTime (svc w) ∧ clock w' = clock w.
Proof.
  intros w'. unfold w'.
  destruct (updateContent_cases w id updates)
    as [(r & old & _ & Hfirst & Hold & ->)|[e [-> | ->]]]; simpl.
  - rewrite (write_row_existing _ _ _ old) by done. rewrite newRowData_length.
    destruct Hfirst as (Hpos & _).
    split; [apply length_insert|]. split; [apply list_lookup_insert_ne; lia|].
    split; [|done]. intros j row Hj.
    destruct (decide (j = r)) as [->|Hne].
    + assert (row = old) as -> by congruence. eexists. split.
      * apply list_lookup_insert_eq. by eapply lookup_lt_Some.
      * rewrite drop_app_length'; [done|]. by rewrite newRowData_length.
    + exists row. by rewrite list_lookup_insert_ne.
  - repeat split; eauto.
  - repeat split; eauto.
Qed.

(** ** The cache of column headers *)

(** X3.  Once [getColumnHeaders] has returned, it returns the same headers
    whatever has become of the store since (row 1 rewritten, store out of
    reach) and without touching the service; this holds for an empty header
    list too, which is cached like any other. *)
Theorem getColumnHeaders_cached (w : world) (hs : list value) (w' : world)
    (rm : remote) (t : nat) :
  getColumnHeaders w = (OK hs, w') →
  getColumnHeaders (World (svc w') rm t) = (OK hs, World (svc w') rm t).
Proof.
  intros Hrun.
  destruct (getColumnHeaders_cases w) as [Hrun'|[e Hrun']];
    rewrite Hrun' in Hrun; [|done].
  injection Hrun as <- <-. unfold getColumnHeaders. by run.
Qed.

Lemma getColumnHeaders_cached_witness :
  getColumnHeaders
    (World (svc (getColumnHeaders empty_sheet_world).2)
           (Remote "Sheet1" [headers_PostID] false) 9)
  = (OK [], World (svc (getColumnHeaders empty_sheet_world).2)
                  (Remote "Sheet1" [headers_PostID] false) 9).
Proof.
  apply (getColumnHeaders_cached empty_sheet_world [] _ _ 9). reflexivity.
Defined.

(** ** Repeating a call *)

Lemma syncSheet_ready_n (w : world) (n : nat) :
  Ready w → col_number (lastCol (schema w)) = Some n →
  syncSheet w =
    (OK (row_to_item (schema w) <$> (take n <$> drop 1 (grid (store w)))), synced w).
Proof.
  intros HR Hn. unfold syncSheet. run.
  destruct HR as (Hinit & Ht & Hon) eqn:HReq. rewrite Hinit.
  rewrite getColumnHeaders_ready by done. simpl.
  rewrite (values_get_sync_n _ _ _ n) by done. simpl.
  by rewrite default_present.
Qed.

(** X4.  After a sync that returned, a second sync returns too, with the
    same records, and the service is then in the state the first sync left;
    the headers are read from the store at most once. *)
Theorem syncSheet_twice (w : world) (recs : list (gmap string value)) (w' : world) :
  syncSheet w = (OK recs, w') →
  syncSheet w' = (OK recs, w') ∧ columnHeaders (svc w') = Some (schema w).
Proof.
  intros Hrun.
  destruct (syncSheet_cases w) as [(n & HR & Hn & Hrun')|[e [Hrun' | Hrun']]];
    rewrite Hrun' in Hrun; [|done..].
  injection Hrun as <- <-. split; [|done].
  by rewrite (syncSheet_ready_n (synced w) n) by (by apply Ready_synced || done).
Qed.

Lemma syncSheet_twice_witness :
  let first := syncSheet short_rows_world in
  is_OK first.1 = true ∧ syncSheet first.2 = first.
Proof.
  cbv zeta. destruct (syncSheet short_rows_world) as [[recs|e] w'] eqn:Hrun.
  - destruct (syncSheet_twice short_rows_world recs w' Hrun) as [Hagain _].
    split; [reflexivity|exact Hagain].
  - vm_compute in Hrun. discriminate Hrun.
Defined.

(** The new row built from a row that an update has already rewritten. *)
Lemma newRowData_again (headers : list value) (updates : gmap string value)
    (old rest : list value) :
  newRowData headers updates (newRowData headers updates old ++ rest)
  = newRowData headers updates old.
Proof.
  unfold newRowData at 1 3. apply imap_ext. intros i h Hi. simpl.
  destruct (negb _) eqn:E; [done|].
  rewrite js_index_app_l by (rewrite newRowData_length; by eapply lookup_lt_Some).
  rewrite (newRowData_lookup _ _ _ _ h) by done. rewrite E.
  unfold js_or. destruct (truthy (js_index old i)) eqn:Ht.
  - by rewrite Ht.
  - done.
Qed.

(** X5.  An update is idempotent.  For an identifier that is a string or
    any truthy value, and a patch that leaves the first column out or sets
    it to that identifier, applying the update a second time succeeds again
    and leaves the store exactly as the first update left it. *)
Theorem updateContent_twice (w : world) (id : value) (updates : gmap string value)
    (r : nat) :
  Ready w → 1 ≤ length (schema w) ≤ 26 →
  first_match (grid (store w)) id r →
  js_or id (VStr "") = id →
  (∀ h0, schema w !! 0 = Some h0 →
         obj_get updates (toKey h0) = VUndef ∨ obj_get updates (toKey h0) = id) →
  let once := updateContent id updates w in
  let twice := updateContent id updates once.2 in
  once.1 = OK true ∧ twice.1 = OK true ∧ store twice.2 = store once.2.
Proof.
  intros HR Hn Hfirst Hid Hpatch once twice.
  pose proof Hfirst as (Hpos & (old & Hold & Hold0) & _).
  destruct (syncSheet_after_update w id updates r old HR Hn Hfirst Hold)
    as (Hrun & Hgrid & _ & _).
  set (new := newRowData (schema w) updates old) in *.
  set (n := length (schema w)) in *.
  set (w1 := written w r new) in *.
  assert (Hnew0 : js_index (new ++ drop n old) 0 = id).
  { destruct (schema w !! 0) as [h0|] eqn:Hh0;
      [|apply lookup_ge_None in Hh0; lia].
    rewrite js_index_app_l by (unfold new; rewrite newRowData_length; lia).
    unfold new. rewrite (newRowData_lookup _ _ _ _ h0) by done.
    destruct (Hpatch h0 eq_refl) as [-> | Hp]; simpl.
    - by rewrite Hold0.
    - rewrite Hp. destruct (strict_eq id VUndef) eqn:E; simpl; [|done].
      apply strict_eq_true in E. rewrite Hold0. by rewrite E in *. }
  assert (Hfirst1 : first_match (grid (store w1)) id r).
  { rewrite Hgrid. by apply first_match_insert. }
  assert (Hrow1 : grid (store w1) !! r = Some (new ++ drop n old)).
  { rewrite Hgrid. apply list_lookup_insert_eq. by eapply lookup_lt_Some. }
  assert (Hrun2 : updateContent id updates w1
                  = (OK true, written w1 r
                       (newRowData (schema w1) updates (new ++ drop n old)))).
  { apply updateContent_found; [by apply Ready_written|done..]. }
  unfold twice, once. rewrite Hrun. simpl. fold w1. rewrite Hrun2. simpl.
  split; [done|]. split; [done|].
  change (schema w1) with (schema w).
  replace (newRowData (schema w) updates (new ++ drop n old)) with new
    by (unfold new; by rewrite newRowData_again).
  f_equal. change (write_row (grid (store w)) r new) with (grid (store w1)).
  rewrite (write_row_existing _ _ _ (new ++ drop n old)) by done.
  replace (length new) with n by (unfold new; by rewrite newRowData_length).
  rewrite drop_app_length' by (unfold new; by rewrite newRowData_length).
  rewrite Hgrid. apply list_insert_insert_eq.
Qed.

Lemma updateContent_twice_witness :
  let once := updateContent (VStr "b") (set_Status (VStr "Published"))
                duplicates_world in
  let twice := updateContent (VStr "b") (set_Status (VStr "Published")) once.2 in
  once.1 = OK true ∧ twice.1 = OK true ∧ store twice.2 = store once.2.
Proof.
  apply (updateContent_twice duplicates_world (VStr "b")
           (set_Status (VStr "Published")) 2).
  - repeat split; reflexivity.
  - simpl. lia.
  - split; [lia|]. split; [by exists [VStr "b"; VStr "Draft"]|].
    intros [|[|j]] row Hj Hrow; [lia| |lia].
    simpl in Hrow. injection Hrow as <-. discriminate.
  - reflexivity.
  - intros h0 Hh0. injection Hh0 as <-. left. reflexivity.
Defined.

(** ** Records as patches *)

(** X6.  When no column is named [__proto__], a record read from a row, used
    as the patch of an update of any row, reads back as the same record:
    whatever the existing row holds and whatever lies to the right of the
    schema, the rebuilt row yields the record again (even when column names
    repeat). *)
Theorem record_patch_round_trip (headers row existingData rest : list value) :
  "__proto__"%string ∉ toKey <$> headers →
  row_to_item headers
    (newRowData headers (row_to_item headers row) existingData ++ rest)
  = row_to_item headers row.
Proof.
  intros Hproto. apply map_eq. intros k.
  destruct (decide (k ∈ toKey <$> headers)) as [Hin|Hout].
  - assert (Hk : k ≠ "__proto__"%string) by (by intros ->).
    assert (is_Some (row_to_item headers row !! k)) as [v Hv].
    { apply elem_of_dom. rewrite row_to_item_dom by done.
      by apply elem_of_list_to_set. }
    pose proof (row_to_item_null_or_truthy _ _ _ _ Hv) as Hnt.
    rewrite updated_item_patched; [|done|done|].
    + rewrite (obj_get_own _ _ v), Hv by done. f_equal.
      destruct Hnt as [-> | Ht]; [done|by apply js_or_truthy].
    + rewrite (obj_get_own _ _ v) by done. intros ->. by destruct Hnt.
  - unfold row_to_item. by rewrite !forEach_header_other.
Qed.

Lemma record_patch_round_trip_witness :
  row_to_item headers_PostID
    (newRowData headers_PostID (row_to_item headers_PostID [VStr "b"; VStr ""])
       [VStr "a"; VStr "Draft"] ++ [VStr "extra"])
  = row_to_item headers_PostID [VStr "b"; VStr ""].
Proof.
  apply (record_patch_round_trip headers_PostID [VStr "b"; VStr ""]
           [VStr "a"; VStr "Draft"] [VStr "extra"]).
  simpl. intros H.
  repeat (apply elem_of_cons in H as [H|H]; [discriminate|]).
  by apply elem_of_nil in H.
Defined.

(** ** What a lookup returns *)

Lemma find_none_iff {A : Type} (p : A → bool) (l : list A) :
  List.find p l = None ↔ ∀ x, x ∈ l → p x = false.
Proof.
  induction l as [|a l IH]; simpl.
  - split; [|done]. intros _ x Hx. by apply elem_of_nil in Hx.
  - destruct (p a) eqn:E.
    + split; [done|]. intros H. rewrite H in E; [done|]. by left.
    + rewrite IH. split.
      * intros H x Hx. apply elem_of_cons in Hx as [->|Hx]; [done|by apply H].
      * intros H x Hx. apply H. by right.
Qed.

(** X7.  A lookup is sound.  The record [getContentById] returns is the
    record of a data row of the sheet, it carries the identifier asked for in
    its field ['Post ID'], the last-sync time is then the current time, and
    every record before it in row order has another ['Post ID']. *)
Theorem getContentById_sound (w : world) (id : value) (rec : gmap string value)
    (w' : world) :
  getContentById id w = (OK (Some rec), w') →
  obj_get rec "Post ID" = id ∧
  lastSyncTime (svc w') = Some (clock w) ∧
  ∃ recs j row, syncSheet w = (OK recs, w') ∧ recs !! j = Some rec ∧
    grid (store w) !! S j = Some row ∧
    (∀ i other, i < j → recs !! i = Some other → obj_get other "Post ID" ≠ id).
Proof.
  intros Hrun.
  destruct (getContentById_cases w id) as [(recs & Hsync & Hrun')|[e [Hrun' | Hrun']]];
    rewrite Hrun' in Hrun; [|done..].
  injection Hrun as Hfind <-.
  assert (Hfirst : ∀ (l : list (gmap string value)),
            List.find (λ item, strict_eq (obj_get item "Post ID") id) l = Some rec →
            obj_get rec "Post ID" = id ∧
            ∃ j, l !! j = Some rec ∧
                 ∀ i other, i < j → l !! i = Some other →
                            obj_get other "Post ID" ≠ id).
  { induction l as [|a l IH]; simpl; [done|].
    destruct (strict_eq (obj_get a "Post ID") id) eqn:E.
    - intros [= ->]. apply strict_eq_true in E. split; [done|].
      exists 0. split; [done|]. intros i other Hi. lia.
    - intros Hl. destruct (IH Hl) as (Hid & j & Hj & Hlt). split; [done|].
      exists (S j). split; [done|]. intros [|i] other Hi Ho; simpl in Ho.
      + injection Ho as <-. by apply strict_eq_false.
      + apply (Hlt i); [lia|done]. }
  destruct (Hfirst recs Hfind) as (Hid & j & Hj & Hlt).
  split; [done|]. split; [done|]. exists recs, j.
  destruct (syncSheet_cases w) as [(n & _ & _ & Hsync')|[e [Hsync' | Hsync']]];
    rewrite Hsync' in Hsync; [|done..].
  injection Hsync as <-. pose proof Hj as Hj'.
  rewrite !list_lookup_fmap, lookup_drop in Hj'.
  destruct (grid (store w) !! (1 + j)) as [row|] eqn:Hrow; [|done].
  exists row. by repeat split.
Qed.

Lemma getContentById_sound_witness :
  ∃ rec w', getContentById (VStr "b") (example_world headers_PostID)
              = (OK (Some rec), w') ∧
            obj_get rec "Post ID" = VStr "b" ∧ lastSyncTime (svc w') = Some 7.
Proof.
  destruct (getContentById (VStr "b") (example_world headers_PostID))
    as [[[rec|]|e] w'] eqn:Hrun; try (vm_compute in Hrun; discriminate Hrun).
  destruct (getContentById_sound _ _ _ _ Hrun) as (Hid & Htime & _).
  exists rec, w'. split; [reflexivity|]. split; [exact Hid|exact Htime].
Defined.

(** Without a data row carrying the identifier the lookup finds nothing. *)
Lemma getContentById_no_match (w : world) (id h0 : value) (rest : list value) :
  Ready w → 1 ≤ length (schema w) ≤ 26 →
  schema w = h0 :: rest → toKey h0 = "Post ID"%string →
  "Post ID"%string ∉ toKey <$> rest →
  truthy id = true →
  no_match (grid (store w)) id →
  getContentById id w = (OK None, synced w).
Proof.
  intros HR Hn Hs Hk Hrest Hid Hno.
  unfold getContentById. run. rewrite syncSheet_ready by done. f_equal. f_equal.
  apply find_none_iff. intros item Hitem.
  apply list_elem_of_fmap in Hitem as (row & -> & Hrow).
  apply list_elem_of_lookup in Hrow as [j Hj]. rewrite lookup_drop in Hj.
  rewrite Hs, row_to_item_Post_ID, strict_eq_or_null by done.
  apply strict_eq_false. apply (Hno (1 + j)); [lia|done].
Qed.


(** X8.  An absent record is no error.  For an initialised service on a
    reachable store, a schema of 1 to 26 columns whose first column alone is
    named ['Post ID'], and a truthy identifier that no data row has in its
    first cell, [getContentById] returns [undefined]; it still counts as a
    sync, setting the last-sync time. *)
Theorem getContentById_absent (w : world) (id h0 : value) (rest : list value) :
  Ready w → 1 ≤ length (schema w) ≤ 26 →
  schema w = h0 :: rest → toKey h0 = "Post ID"%string →
  "Post ID"%string ∉ toKey <$> rest →
  truthy id = true →
  no_match (grid (store w)) id →
  getContentById id w = (OK None, synced w) ∧
  lastSyncTime (svc (getContentById id w).2) = Some (clock w).
Proof.
  intros HR Hn Hs Hk Hrest Hid Hno.
  by rewrite (getContentById_no_match w id h0 rest).
Qed.

Lemma getContentById_absent_witness :
  getContentById (VStr "c") (example_world headers_PostID)
  = (OK None, synced (example_world headers_PostID)) ∧
  lastSyncTime (svc (getContentById (VStr "c") (example_world headers_PostID)).2)
  = Some (clock (example_world headers_PostID)).
Proof.
  apply (getContentById_absent _ _ (VStr "Post ID") [VStr "Status"]).
  - repeat split; reflexivity.
  - simpl. lia.
  - reflexivity.
  - reflexivity.
  - simpl. intros H. apply elem_of_cons in H as [H|H]; [discriminate|].
    by apply elem_of_nil in H.
  - reflexivity.
  - intros [|[|[|j]]] row Hpos Hrow; simpl in Hrow; [lia|..|done];
      injection Hrow as <-; discriminate.
Defined.

(** X9.  A blank identifier is never found.  For an identifier that is
    falsy but neither [null] nor [undefined] (the empty string, [0],
    [false]), [getContentById] returns no record in any state, although
    [updateContent] does locate a row whose first cell is that value. *)
Theorem getContentById_blank_id (w : world) (id : value) :
  truthy id = false → id ≠ VNull → id ≠ VUndef →
  (∀ rec w', getContentById id w ≠ (OK (Some rec), w')) ∧
  (∀ updates r, Ready w → 1 ≤ length (schema w) ≤ 26 →
     first_match (grid (store w)) id r →
     (updateContent id updates w).1 = OK true).
Proof.
  intros Hfalsy Hnull Hundef. split.
  - intros rec w' Hrun.
    destruct (getContentById_cases w id)
      as [(recs & Hsync & Hrun')|[e [Hrun' | Hrun']]];
      rewrite Hrun' in Hrun; [|done..].
    injection Hrun as Hfind _. apply find_some in Hfind as [Hin Heq].
    apply strict_eq_true in Heq. apply list_elem_of_In in Hin.
    destruct (syncSheet_cases w) as [(n & _ & _ & Hsync')|[e [Hsync' | Hsync']]];
      rewrite Hsync' in Hsync; [|done..].
    injection Hsync as <-. apply list_elem_of_fmap in Hin as (row & -> & _).
    unfold obj_get in Heq.
    destruct (row_to_item (schema w) row !! "Post ID"%string) as [v|] eqn:Hv;
      simpl in Heq; [|congruence].
    apply row_to_item_null_or_truthy in Hv as [-> | Ht]; congruence.
  - intros updates r HR Hn Hfirst.
    pose proof Hfirst as (_ & (old & Hold & _) & _).
    by rewrite (updateContent_found w id updates r old).
Qed.

Lemma getContentById_blank_id_witness :
  (getContentById (VStr "") blank_id_world).1 = OK None ∧
  (updateContent (VStr "") (set_Status (VStr "Approved")) blank_id_world).1 = OK true.
Proof.
  destruct (getContentById_blank_id blank_id_world (VStr "")) as [Hnever Hupd];
    [reflexivity|discriminate|discriminate|].
  split; [reflexivity|].
  apply (Hupd _ 1); [repeat split; reflexivity|simpl; lia|].
  split; [lia|]. split; [by exists [VStr ""; VStr "Draft"]|].
  intros j row Hj. lia.
Defined.

(** * Initialisation, validation and timers *)

Ltac runP := unfold mbind, P_bind, mret, P_ret, this_syncInterval,
  set_syncInterval, setInterval, clearInterval; simpl.

Lemma lift_timers {A : Type} (m : M A) (p : process) :
  syncInterval (lift m p).2 = syncInterval p ∧
  intervals (lift m p).2 = intervals p ∧
  next_interval (lift m p).2 = next_interval p.
Proof. unfold lift. by destruct (m (world_of p)). Qed.

Lemma lift_run {A : Type} (m : M A) (p : process) :
  (lift m p).1 = (m (world_of p)).1 ∧ world_of (lift m p).2 = (m (world_of p)).2.
Proof. unfold lift. by destruct (m (world_of p)). Qed.

Lemma timers_ok_same (p p' : process) :
  syncInterval p' = syncInterval p → intervals p' = intervals p →
  next_interval p' = next_interval p → timers_ok p → timers_ok p'.
Proof. unfold timers_ok. by intros -> -> ->. Qed.

Lemma startPeriodicSync_run (p : process) :
  timers_ok p →
  startPeriodicSync p =
    (OK (), Process (world_of p) (Some (next_interval p)) {[next_interval p]}
                    (S (next_interval p))).
Proof.
  intros [Hheld Hnew]. unfold startPeriodicSync. runP.
  destruct (syncInterval p) as [t|] eqn:Ht; simpl.
  - replace ({[next_interval p]} ∪ intervals p ∖ {[t]})
      with ({[next_interval p]} : gset nat); [done|].
    apply set_eq. intros x. rewrite elem_of_union, elem_of_difference.
    split; [by left|]. intros [Hx|[Hx Hne]]; [done|].
    apply Hheld in Hx. rewrite elem_of_singleton in Hne. congruence.
  - replace ({[next_interval p]} ∪ intervals p)
      with ({[next_interval p]} : gset nat); [done|].
    apply set_eq. intros x. rewrite elem_of_union.
    split; [by left|]. intros [Hx|Hx]; [done|]. by apply Hheld in Hx.
Qed.

Lemma startPeriodicSync_ok (p : process) :
  timers_ok p → timers_ok (startPeriodicSync p).2.
Proof.
  intros Hok. rewrite startPeriodicSync_run by done. split; simpl.
  - intros t Ht. apply elem_of_singleton in Ht. by subst.
  - intros t [= <-]. lia.
Qed.

Lemma cleanup_run (p : process) :
  timers_ok p →
  cleanup p = (OK (), Process (world_of p) (syncInterval p) ∅ (next_interval p)).
Proof.
  intros [Hheld Hnew]. unfold cleanup. runP.
  destruct (syncInterval p) as [t|] eqn:Ht; simpl.
  - replace (intervals p ∖ {[t]}) with (∅ : gset nat); [by rewrite Ht|].
    apply set_eq. intros x. rewrite elem_of_difference, elem_of_singleton.
    split; [intros Hx; by apply not_elem_of_empty in Hx|].
    intros [Hx Hne]. apply Hheld in Hx. congruence.
  - assert (intervals p = ∅) as Hempty.
    { apply set_eq. intros x. split; [|intros Hx; by apply not_elem_of_empty in Hx].
      intros Hx. by apply Hheld in Hx. }
    destruct p as [w s i n]. simpl in *. by subst.
Qed.

(** The outcomes of [initialize]: the metadata read fails and the world is
    only marked as having a client; or the header read fails after the title
    has been set; or all succeeds and the timer is restarted. *)
Lemma initialize_cases (p : process) :
  let w := world_of p in
  let w1 := (set_sheets w).2 in
  let w2 := (set_sheetTitle (title (store w)) w1).2 in
  (online (store w) = false ∧
   initialize p = (Err ErrRemote,
                   Process w1 (syncInterval p) (intervals p) (next_interval p))) ∨
  (online (store w) = true ∧ ∃ e,
   loadColumnHeaders w2 = (Err e, w2) ∧
   initialize p = (Err e,
                   Process w2 (syncInterval p) (intervals p) (next_interval p))) ∨
  (online (store w) = true ∧ ∃ hs w3,
   loadColumnHeaders w2 = (OK hs, w3) ∧
   initialize p =
     startPeriodicSync (Process w3 (syncInterval p) (intervals p) (next_interval p))).
Proof.
  intros w w1 w2. unfold initialize. unfold mbind, P_bind, lift at 1 2. simpl.
  unfold await_spreadsheets_get, spreadsheets_get. simpl. fold w.
  destruct (online (store w)) eqn:Hon; simpl; [|by left].
  right. unfold lift. simpl.
  change (loadColumnHeaders _) with (loadColumnHeaders w2).
  destruct (loadColumnHeaders w2) as [[hs|e] w3] eqn:Hload; simpl.
  - right. split; [done|]. by exists hs, w3.
  - left. split; [done|]. exists e.
    destruct (loadColumnHeaders_cases w2) as [H|[e' H]]; rewrite H in Hload; [done|].
    by injection Hload as <- <-.
Qed.

Lemma initialize_ok (p : process) : timers_ok p → timers_ok (initialize p).2.
Proof.
  intros Hok.
  destruct (initialize_cases p) as [[_ ->]|[(_ & e & _ & ->)|(_ & hs & w3 & _ & ->)]].
  - by eapply timers_ok_same.
  - by eapply timers_ok_same.
  - apply startPeriodicSync_ok. by eapply timers_ok_same.
Qed.

Lemma validateSheet_timers (c : config) (p : process) :
  (syncInterval (validateSheet c p).2 = syncInterval p ∧
   intervals (validateSheet c p).2 = intervals p ∧
   next_interval (validateSheet c p).2 = next_interval p) ∨
  (syncInterval (validateSheet c p).2 = syncInterval (initialize p).2 ∧
   intervals (validateSheet c p).2 = intervals (initialize p).2 ∧
   next_interval (validateSheet c p).2 = next_interval (initialize p).2).
Proof.
  unfold validateSheet.
  destruct (_ || _); [by left|].
  destruct (negb (sheets (svc (world_of p)))).
  - right. destruct (initialize p) as [[[]|e] p1]; [|done].
    unfold lift. simpl. unfold await_spreadsheets_get, spreadsheets_get.
    by destruct (online (store (world_of p1))).
  - left. unfold lift. simpl. unfold await_spreadsheets_get, spreadsheets_get.
    by destruct (online (store (world_of p))).
Qed.

Lemma run_step_ok (s : step) (p : process) : timers_ok p → timers_ok (run_step s p).
Proof.
  intros Hok. destruct s as [| | |c|t]; simpl.
  - by apply initialize_ok.
  - by apply startPeriodicSync_ok.
  - rewrite cleanup_run by done. destruct Hok as [_ Hnew]. split; [|done].
    simpl. intros t Ht. by apply not_elem_of_empty in Ht.
  - destruct (validateSheet_timers c p) as [(H1 & H2 & H3)|(H1 & H2 & H3)].
    + by eapply timers_ok_same.
    + eapply timers_ok_same; [done..|]. by apply initialize_ok.
  - unfold timer_fires. destruct (decide _); [|done].
    destruct (lift_timers periodic_sync p) as (H1 & H2 & H3).
    by eapply timers_ok_same.
Qed.

Lemma run_steps_ok (steps : list step) (p : process) :
  timers_ok p → timers_ok (run_steps steps p).
Proof.
  revert p. induction steps as [|s steps IH]; intros p Hok; [done|].
  apply IH. by apply run_step_ok.
Qed.

Lemma fresh_process_ok (rm : remote) (now : nat) : timers_ok (fresh_process rm now).
Proof.
  split; simpl; [|done]. intros t Ht. by apply not_elem_of_empty in Ht.
Qed.

(** X10.  However often the service is initialised, validated, started and
    cleaned up, and whichever timers fire in between, at most one interval
    timer is running, and it is the one the service holds in
    [syncInterval]: starting the periodic sync again replaces the timer
    instead of adding one. *)
Theorem one_timer_at_most (rm : remote) (now : nat) (steps : list step) :
  let p := run_steps steps (fresh_process rm now) in
  size (intervals p) ≤ 1 ∧ ∀ t, t ∈ intervals p → syncInterval p = Some t.
Proof.
  intros p.
  assert (Hok : timers_ok p) by apply run_steps_ok, fresh_process_ok.
  destruct Hok as [Hheld _]. split; [|done].
  destruct (syncInterval p) as [t|] eqn:Ht.
  - transitivity (size ({[t]} : gset nat)); [|rewrite size_singleton; lia].
    apply subseteq_size. intros x Hx. apply Hheld in Hx.
    apply elem_of_singleton. congruence.
  - replace (intervals p) with (∅ : gset nat); [rewrite size_empty; lia|].
    symmetry. apply set_eq. intros x.
    split; [|intros Hx; by apply not_elem_of_empty in Hx].
    intros Hx. by apply Hheld in Hx.
Qed.

(** X11.  After [cleanup] no interval timer is running, whatever happened
    before, so no periodic sync runs any more; [cleanup] changes nothing
    else, and a second [cleanup] changes nothing at all. *)
Theorem cleanup_stops_timers (rm : remote) (now : nat) (steps : list step) (t : nat) :
  let p := run_steps steps (fresh_process rm now) in
  let stopped := (cleanup p).2 in
  intervals stopped = ∅ ∧ world_of stopped = world_of p ∧
  timer_fires t stopped = (OK (), stopped) ∧
  cleanup stopped = (OK (), stopped).
Proof.
  intros p stopped.
  assert (Hok : timers_ok p) by apply run_steps_ok, fresh_process_ok.
  assert (Hok' : timers_ok stopped) by apply (run_step_ok Cleanup p Hok).
  unfold stopped in *. rewrite cleanup_run in * by done. simpl.
  split; [done|]. split; [done|]. split.
  - unfold timer_fires. simpl. destruct (decide _) as [Hin|]; [|done].
    by apply not_elem_of_empty in Hin.
  - by rewrite cleanup_run.
Qed.

(** ** Initialising *)

Lemma startPeriodicSync_world (p : process) :
  (startPeriodicSync p).1 = OK () ∧ world_of (startPeriodicSync p).2 = world_of p.
Proof. unfold startPeriodicSync. runP. by destruct (syncInterval p). Qed.

Lemma initialize_online (p : process) :
  online (store (world_of p)) = true →
  let w := world_of p in
  initialize p =
    startPeriodicSync
      (Process (World (Service true (Some (title (store w)))
                               (Some (header_row (grid (store w))))
                               (lastSyncTime (svc w)))
                      (store w) (clock w))
               (syncInterval p) (intervals p) (next_interval p)).
Proof.
  intros Hon w.
  destruct (initialize_cases p)
    as [[Hoff _]|[(_ & e & Hload & _)|(_ & hs & w3 & Hload & ->)]].
  - congruence.
  - exfalso. revert Hload. unfold loadColumnHeaders. run.
    unfold values_get, header_range. simpl. rewrite Hon. simpl.
    by rewrite String.eqb_refl.
  - revert Hload. unfold loadColumnHeaders. run.
    unfold values_get, header_range. simpl. rewrite Hon. simpl.
    rewrite String.eqb_refl. simpl. rewrite first_row_header.
    by intros [= <- <-].
Qed.

(** X12.  On a reachable store [initialize] succeeds: the service then
    addresses the tab of the store, its schema is row 1 as it is now (a
    schema cached before is replaced), one periodic timer is running, and
    neither the store nor the last-sync time has changed.  If the tab has a
    name and row 1 has 1 to 26 cells, a sync then returns the records of the
    rows below it. *)
Theorem initialize_reachable (p : process) :
  timers_ok p →
  online (store (world_of p)) = true →
  let w := world_of p in
  let p' := (initialize p).2 in
  (initialize p).1 = OK () ∧
  sheets (svc (world_of p')) = true ∧
  sheetTitle (svc (world_of p')) = Some (title (store w)) ∧
  columnHeaders (svc (world_of p')) = Some (header_row (grid (store w))) ∧
  lastSyncTime (svc (world_of p')) = lastSyncTime (svc w) ∧
  store (world_of p') = store w ∧
  syncInterval p' = Some (next_interval p) ∧
  intervals p' = {[next_interval p]} ∧
  (title (store w) ≠ ""%string → 1 ≤ length (header_row (grid (store w))) ≤ 26 →
   (syncSheet (world_of p')).1
   = OK (row_to_item (header_row (grid (store w))) <$> drop 1 (grid (store w)))).
Proof.
  intros Hok Hon w p'. unfold p'. rewrite initialize_online by done. fold w.
  rewrite startPeriodicSync_run by (by eapply timers_ok_same). simpl.
  repeat split; try done.
  intros Htitle Hn. rewrite syncSheet_ready; [done| |done].
  repeat split; simpl; [|done..]. unfold not_initialized. simpl.
  destruct (String.eqb (title (store w)) "") eqn:E; [|done].
  by apply String.eqb_eq in E.
Qed.

Lemma initialize_reachable_witness :
  let p' := (initialize (fresh_process (example_remote headers_PostID) 5)).2 in
  columnHeaders (svc (world_of p')) = Some headers_PostID ∧
  intervals p' = {[0]} ∧
  (syncSheet (world_of p')).1
  = OK (row_to_item headers_PostID <$>
          [[VStr "a"; VStr "Draft"]; [VStr "b"; VStr "Approved"]]).
Proof.
  destruct (initialize_reachable (fresh_process (example_remote headers_PostID) 5))
    as (_ & _ & _ & Hcols & _ & _ & _ & Htimers & Hsync).
  - apply fresh_process_ok.
  - reflexivity.
  - split; [exact Hcols|]. split; [exact Htimers|].
    apply Hsync; [discriminate|simpl; lia].
Defined.

(** X13.  On an unreachable store [initialize] throws the remote error.
    The client has been created by then, but the tab title, the schema and
    the timers are as before: for a fresh service no timer runs, and [sync]
    and [update] go on throwing the not-initialized error, also once the
    store can be reached again. *)
Theorem initialize_unreachable (p : process) (rm : remote) (id : value)
    (updates : gmap string value) :
  online (store (world_of p)) = false →
  let p' := (initialize p).2 in
  (initialize p).1 = Err ErrRemote ∧
  sheets (svc (world_of p')) = true ∧
  sheetTitle (svc (world_of p')) = sheetTitle (svc (world_of p)) ∧
  columnHeaders (svc (world_of p')) = columnHeaders (svc (world_of p)) ∧
  syncInterval p' = syncInterval p ∧ intervals p' = intervals p ∧
  (sheetTitle (svc (world_of p)) = None →
   syncSheet (world_of (with_store p' rm))
     = (Err ErrNotInitialized, world_of (with_store p' rm)) ∧
   updateContent id updates (world_of (with_store p' rm))
     = (Err ErrNotInitialized, world_of (with_store p' rm))).
Proof.
  intros Hoff p'. unfold p'.
  destruct (initialize_cases p) as [[_ ->]|[(Hon & _)|(Hon & _)]]; [|congruence..].
  simpl. do 6 (split; [done|]). intros Hnone. split.
  - unfold syncSheet. run. unfold not_initialized. simpl. by rewrite Hnone.
  - unfold updateContent. run. unfold not_initialized. simpl. by rewrite Hnone.
Qed.

Lemma initialize_unreachable_witness :
  let p' := (initialize (fresh_process (unplug (example_world headers_PostID)).(store) 5)).2 in
  (initialize (fresh_process (unplug (example_world headers_PostID)).(store) 5)).1
    = Err ErrRemote ∧
  intervals p' = ∅ ∧
  (syncSheet (world_of (with_store p' (example_remote headers_PostID)))).1
    = Err ErrNotInitialized.
Proof.
  destruct (initialize_unreachable
              (fresh_process (unplug (example_world headers_PostID)).(store) 5)
              (example_remote headers_PostID) VNull ∅ eq_refl)
    as (Hres & _ & _ & _ & _ & Htimers & Hstuck).
  split; [exact Hres|]. split; [exact Htimers|].
  destruct (Hstuck eq_refl) as [-> _]. reflexivity.
Defined.

(** ** Validating *)

Lemma complete_flags (c : config) :
  negb (hasSheetId (flags_of c)) || negb (hasClientEmail (flags_of c))
  || negb (hasPrivateKey (flags_of c)) = negb (complete c).
Proof.
  unfold complete.
  by destruct (hasSheetId _), (hasClientEmail _), (hasPrivateKey _).
Qed.

(** The second part of [validateSheet], once a client exists. *)
Lemma validateSheet_probe (c : config) (p : process) :
  complete c = true → sheets (svc (world_of p)) = true →
  validateSheet c p =
    if online (store (world_of p))
    then (OK (SheetStatus "connected" (flags_of c) (Some (clock (world_of p))) None),
          (lift (set_lastSyncTime (clock (world_of p))) p).2)
    else (OK (status_error c (Thrown ErrRemote)), p).
Proof.
  intros Hc Hs. unfold validateSheet. rewrite complete_flags, Hc, Hs. simpl.
  unfold lift, await_spreadsheets_get, spreadsheets_get. simpl.
  destruct (online (store (world_of p))); simpl; [done|].
  by destruct p.
Qed.

(** X14.  [validateSheet] always returns a status object and never writes
    to the store.  The status is ['connected'] exactly when the
    configuration is complete and the store can be reached; the last-sync
    time is then set to the current time although no row has been read, and
    [getLastSyncTime] returns it.  With an incomplete configuration nothing
    is called and nothing changes. *)
Theorem validateSheet_status (c : config) (p : process) :
  let p' := (validateSheet c p).2 in
  ∃ st, (validateSheet c p).1 = OK st ∧
    store (world_of p') = store (world_of p) ∧
    (vs_status st = "connected"%string ↔
     complete c = true ∧ online (store (world_of p)) = true) ∧
    (vs_status st = "connected"%string →
     vs_error st = None ∧ vs_lastSync st = Some (clock (world_of p)) ∧
     (getLastSyncTime (world_of p')).1 = OK (Some (clock (world_of p)))) ∧
    (vs_status st ≠ "connected"%string →
     vs_status st = "error"%string ∧ is_Some (vs_error st) ∧
     lastSyncTime (svc (world_of p')) = lastSyncTime (svc (world_of p))) ∧
    (complete c = false →
     p' = p ∧ st = status_error c MissingConfiguration).
Proof.
  intros p'. unfold p'.
  destruct (complete c) eqn:Hc.
  2:{ unfold validateSheet. rewrite complete_flags, Hc. simpl.
      eexists. split; [done|]. split; [done|]. split; [by split; [|intros []]|].
      split; [done|]. by split; [intros _; repeat split; eauto|]. }
  destruct (sheets (svc (world_of p))) eqn:Hs.
  - rewrite validateSheet_probe by done.
    destruct (online (store (world_of p))) eqn:Hon; simpl.
    + eexists. split; [done|]. split; [done|]. split; [done|].
      split; [done|]. split; [done|]. done.
    + eexists. split; [done|]. split; [done|]. split; [by split; [|intros []]|].
      split; [done|]. by split; [intros _; repeat split; eauto|].
  - unfold validateSheet. rewrite complete_flags, Hc, Hs. simpl.
    destruct (online (store (world_of p))) eqn:Hon.
    + rewrite initialize_online by done.
      destruct (startPeriodicSync_world
                  (Process (World (Service true (Some (title (store (world_of p))))
                                     (Some (header_row (grid (store (world_of p)))))
                                     (lastSyncTime (svc (world_of p))))
                              (store (world_of p)) (clock (world_of p)))
                           (syncInterval p) (intervals p) (next_interval p)))
        as [Hres Hworld].
      destruct (startPeriodicSync _) as [[[]|e] p1]; simpl in *; [|done].
      unfold lift, await_spreadsheets_get, spreadsheets_get. simpl.
      rewrite Hworld. simpl. rewrite Hon. simpl.
      eexists. split; [done|]. split; [done|]. split; [done|].
      split; [done|]. split; [done|]. done.
    + destruct (initialize_cases p) as [[_ ->]|[(Hon' & _)|(Hon' & _)]];
        [|congruence..].
      simpl. eexists. split; [done|]. split; [done|].
      split; [by split; [|intros []]|].
      split; [done|]. by split; [intros _; repeat split; eauto|].
Qed.

(** X15.  A service whose first [initialize] failed on an unreachable
    store stays unusable once the store is back: [validateSheet] finds a
    client, does not initialise again and reports ['connected'], but the tab
    title is still missing, so [sync] and [update] keep throwing the
    not-initialized error and no periodic timer runs. *)
Theorem failed_initialize_sticks (rm rm' : remote) (now : nat) (c : config)
    (id : value) (updates : gmap string value) :
  online rm = false → online rm' = true → complete c = true →
  let failed := initialize (fresh_process rm now) in
  let back := with_store failed.2 rm' in
  let checked := validateSheet c back in
  failed.1 = Err ErrRemote ∧
  (∃ st, checked.1 = OK st ∧ vs_status st = "connected"%string) ∧
  (syncSheet (world_of checked.2)).1 = Err ErrNotInitialized ∧
  (updateContent id updates (world_of checked.2)).1 = Err ErrNotInitialized ∧
  intervals checked.2 = ∅.
Proof.
  intros Hoff Hon Hc failed back checked. unfold checked, back, failed.
  destruct (initialize_cases (fresh_process rm now))
    as [[_ ->]|[(Hon' & _)|(Hon' & _)]]; [|simpl in Hon'; congruence..].
  simpl. split; [done|].
  rewrite validateSheet_probe by done. simpl. rewrite Hon. simpl.
  split; [by eexists|]. by repeat split.
Qed.

Lemma failed_initialize_sticks_witness :
  let failed := initialize (fresh_process (Remote "Sheet1" [headers_PostID] false) 1) in
  let checked := validateSheet full_config
                   (with_store failed.2 (example_remote headers_PostID)) in
  (∃ st, checked.1 = OK st ∧ vs_status st = "connected"%string) ∧
  (syncSheet (world_of checked.2)).1 = Err ErrNotInitialized.
Proof.
  destruct (failed_initialize_sticks (Remote "Sheet1" [headers_PostID] false)
              (example_remote headers_PostID) 1 full_config VNull ∅
              eq_refl eq_refl eq_refl) as (_ & Hst & Hsync & _).
  split; [exact Hst|exact Hsync].
Defined.

Lemma validateSheet_status_witness :
  ∃ st, (validateSheet full_config
           (fresh_process (example_remote headers_PostID) 4)).1 = OK st ∧
        vs_status st = "connected"%string ∧ vs_lastSync st = Some 4.
Proof.
  destruct (validateSheet_status full_config
              (fresh_process (example_remote headers_PostID) 4))
    as (st & Hrun & _ & Hiff & Hconnected & _).
  exists st. split; [exact Hrun|].
  assert (Hst : vs_status st = "connected"%string)
    by (apply Hiff; split; reflexivity).
  split; [exact Hst|]. by destruct (Hconnected Hst) as (_ & -> & _).
Defined.

(** ** The health route *)

Lemma validateSheet_keeps_headers (c : config) (p : process) (hs : list value) :
  sheets (svc (world_of p)) = true →
  columnHeaders (svc (world_of p)) = Some hs →
  ∃ st, (validateSheet c p).1 = OK st ∧
        columnHeaders (svc (world_of (validateSheet c p).2)) = Some hs ∧
        (complete c = false ∨ online (store (world_of p)) = false →
         vs_status st = "error"%string).
Proof.
  intros Hs Hcols. destruct (complete c) eqn:Hc.
  - rewrite validateSheet_probe by done.
    destruct (online (store (world_of p))) eqn:Hon; simpl.
    + eexists. split; [done|]. split; [done|]. by intros [|].
    + eexists. split; [done|]. split; [done|]. done.
  - unfold validateSheet. rewrite complete_flags, Hc. simpl.
    eexists. split; [done|]. split; [done|]. done.
Qed.

(** X16.  The health route answers ['healthy'] with status 200 whenever
    the service has a client and cached headers, whatever the sheet
    validation found: with an unreachable store or an incomplete
    configuration the answer is still ['healthy'], carrying the sheet status
    ['error'] and the cached columns. *)
Theorem health_route_cached (c : config) (p : process) (hs : list value) :
  sheets (svc (world_of p)) = true →
  columnHeaders (svc (world_of p)) = Some hs →
  ∃ st, (health_route c p).1 = Healthy st hs ∧
        health_status (health_route c p).1 = 200 ∧
        (complete c = false ∨ online (store (world_of p)) = false →
         vs_status st = "error"%string).
Proof.
  intros Hs Hcols.
  destruct (validateSheet_keeps_headers c p hs Hs Hcols) as (st & Hrun & Hkept & Herr).
  exists st. unfold health_route.
  destruct (validateSheet c p) as [[st'|e] p1]; simpl in *; [|done].
  injection Hrun as ->.
  unfold lift, getColumnHeaders. run. rewrite Hkept. simpl. done.
Qed.

Lemma health_route_cached_witness :
  ∃ st, (health_route full_config
           (Process (unplug (example_world headers_PostID)) None ∅ 0)).1
        = Healthy st headers_PostID ∧
        vs_status st = "error"%string.
Proof.
  destruct (health_route_cached full_config
              (Process (unplug (example_world headers_PostID)) None ∅ 0)
              headers_PostID eq_refl eq_refl) as (st & Hrun & _ & Herr).
  exists st. split; [exact Hrun|]. apply Herr. right. reflexivity.
Defined.

(** ** The periodic sync *)

(** X17.  A periodic sync never throws and never stops the timer: when a
    timer fires, whether the sync succeeds or fails, the timers and the
    store are as before; the last-sync time moves to the current time when
    the timer is running and the sync succeeds, and stays otherwise. *)
Theorem timer_fires_quietly (t : nat) (p : process) :
  let p' := (timer_fires t p).2 in
  (timer_fires t p).1 = OK () ∧
  syncInterval p' = syncInterval p ∧ intervals p' = intervals p ∧
  store (world_of p') = store (world_of p) ∧
  lastSyncTime (svc (world_of p')) =
    (if bool_decide (t ∈ intervals p) && is_OK (syncSheet (world_of p)).1
     then Some (clock (world_of p))
     else lastSyncTime (svc (world_of p))).
Proof.
  intros p'. unfold p', timer_fires.
  destruct (decide (t ∈ intervals p)) as [Hin|Hout].
  - rewrite bool_decide_eq_true_2 by done. unfold lift, periodic_sync. simpl.
    destruct (syncSheet_cases (world_of p)) as [(n & _ & _ & ->)|[e [-> | ->]]];
      by simpl.
  - by rewrite bool_decide_eq_false_2 by done.
Qed.

(** * The content routes *)

Lemma prefix_refl (s : string) : String.prefix s s = true.
Proof.
  induction s as [|a s IH]; simpl; [done|].
  by destruct (Ascii.ascii_dec a a).
Qed.

Lemma includes_refl (s : string) : includes s s = true.
Proof.
  destruct s as [|a s]; [done|].
  change (String.prefix (String a s) (String a s) || includes s (String a s) = true).
  by rewrite prefix_refl.
Qed.

Lemma includes_append (a b needle : string) :
  includes b needle = true → includes (a +:+ b) needle = true.
Proof.
  intros Hb. induction a as [|c a IH]; simpl; [done|].
  rewrite IH. apply orb_true_r.
Qed.

Section RouteProperties.

Context (toISOString : nat → string) (thrown_message : string).

#[local] Abbreviation error_message := (error_message thrown_message).
#[local] Abbreviation post_status := (post_status toISOString thrown_message).
#[local] Abbreviation update_status := (update_status toISOString).
#[local] Abbreviation status_updates := (status_updates toISOString).
#[local] Abbreviation get_content := (get_content toISOString).
#[local] Abbreviation mappedContent := (mappedContent toISOString).

Lemma not_found_message (id : value) :
  includes (error_message (ErrNotFound id)) "not found" = true ∧
  String.eqb (error_message (ErrNotFound id)) "" = false.
Proof.
  split; [|done]. unfold error_message.
  apply (includes_append "Content with ID "), (includes_append _ " not found").
  done.
Qed.

(** The outcomes of the [try] block of the status route. *)
Lemma update_status_cases (id status feedback : value) (w : world) :
  (∃ content, getContentById id w = (OK (Some content), synced w) ∧
     update_status id status feedback w =
       match updateContent id (status_updates (clock w) status feedback content)
                           (synced w) with
       | (OK _, w') => (OK (), w')
       | (Err e, w') => (Err e, w')
       end) ∨
  (getContentById id w = (OK None, synced w) ∧
   update_status id status feedback w = (Err (ErrNotFound id), synced w)) ∨
  (∃ e w1, getContentById id w = (Err e, w1) ∧
           update_status id status feedback w = (Err e, w1)).
Proof.
  unfold update_status. run.
  destruct (getContentById_cases w id) as [(recs & _ & Hrun)|[e Hrun]].
  - rewrite Hrun. destruct (List.find _ recs) as [content|]; simpl.
    + left. exists content. split; [done|]. by destruct (updateContent _ _ _) as [[|]].
    + right. left. done.
  - right. right. exists e.
    destruct Hrun as [Hrun|Hrun]; rewrite Hrun; by eexists.
Qed.

End RouteProperties.

(** An update of the first matching row, and the lookup that follows. *)
Lemma update_then_lookup (w : world) (id : value) (updates : gmap string value)
    (h0 : value) (rest : list value) (r : nat) (old : list value) :
  Ready w → 1 ≤ length (schema w) ≤ 26 →
  schema w = h0 :: rest → toKey h0 = "Post ID"%string →
  "Post ID"%string ∉ toKey <$> rest →
  truthy id = true →
  first_match (grid (store w)) id r → grid (store w) !! r = Some old →
  obj_get updates "Post ID" = VUndef ∨ obj_get updates "Post ID" = id →
  let new := newRowData (schema w) updates old in
  let w2 := written w r new in
  updateContent id updates w = (OK true, w2) ∧
  getContentById id w2 =
    (OK (Some (row_to_item (schema w) (new ++ drop (length (schema w)) old))),
     synced w2).
Proof.
  intros HR Hn Hs Hk Hrest Hid Hfirst Hold Hpatch new w2.
  pose proof Hfirst as (Hpos & (old' & Hold' & Hold0) & _).
  assert (old' = old) as -> by congruence.
  destruct (syncSheet_after_update w id updates r old HR Hn Hfirst Hold)
    as (Hupd & Hgrid & _ & _).
  fold new w2 in Hupd, Hgrid. split; [done|].
  assert (Hnew0 : js_index (new ++ drop (length (schema w)) old) 0 = id).
  { rewrite js_index_app_l by (unfold new; rewrite newRowData_length; lia).
    unfold new. rewrite (newRowData_lookup _ _ _ _ h0) by (by rewrite Hs).
    rewrite Hk. destruct Hpatch as [-> | Hp]; simpl.
    - rewrite Hold0. by apply js_or_truthy.
    - rewrite Hp. destruct (strict_eq id VUndef) eqn:E; simpl; [|done].
      apply strict_eq_true in E. by rewrite E in Hid. }
  change (schema w) with (schema w2).
  apply (getContentById_found w2 id h0 rest r); [|done|done|done|done|done| |].
  - unfold w2. by apply Ready_written.
  - rewrite Hgrid. by apply first_match_insert.
  - rewrite Hgrid. apply list_lookup_insert_eq. by eapply lookup_lt_Some.
Qed.

Section RouteTheorems.

Context (toISOString : nat → string) (thrown_message : string).

#[local] Abbreviation error_message := (error_message thrown_message).
#[local] Abbreviation post_status := (post_status toISOString thrown_message).
#[local] Abbreviation update_status := (update_status toISOString).
#[local] Abbreviation status_updates := (status_updates toISOString).
#[local] Abbreviation get_content := (get_content toISOString).
#[local] Abbreviation mappedContent := (mappedContent toISOString).

Lemma post_status_of_error (id status feedback : value) (w : world)
    (e : error) (w' : world) :
  truthy id = true → truthy status = true →
  update_status id status feedback w = (Err e, w') →
  post_status id status feedback w =
    (Response (if includes (error_message e) "not found" then 404 else 500)
              (ReplyError (if String.eqb (error_message e) ""
                           then "Failed to update status"
                           else error_message e)),
     w').
Proof. intros Hid Hst Hrun. unfold post_status. by rewrite Hid, Hst, Hrun. Qed.

(** X18.  The status route answers 200, 400, 404 or 500, and leaves no
    partial write: whenever the answer is not 200 the store is unchanged.
    A request without an identifier or a status is answered 400 before the
    service is called; on a service that is not initialised the answer is
    500 with the message of the service. *)
Theorem post_status_answers (id status feedback : value) (w : world) :
  let answer := post_status id status feedback w in
  res_status answer.1 ∈ [200; 400; 404; 500] ∧
  (res_status answer.1 ≠ 200 → store answer.2 = store w) ∧
  (truthy id = false ∨ truthy status = false →
   answer = (Response 400 (ReplyError "Missing required fields"), w)) ∧
  (truthy id = true → truthy status = true → not_initialized (svc w) = true →
   answer = (Response 500 (ReplyError "Sheets service not initialized"), w)).
Proof.
  intros answer. unfold answer, post_status.
  destruct (truthy id) eqn:Hid; simpl.
  2:{ repeat split; try done; set_solver. }
  destruct (truthy status) eqn:Hst; simpl.
  2:{ repeat split; try done; set_solver. }
  assert (Hcode : ∀ e, (if includes (error_message e) "not found" then 404 else 500)
                       ∈ [200; 400; 404; 500]).
  { intros e. destruct (includes _ _); set_solver. }
  split; [|split; [|split]].
  - destruct (update_status id status feedback w) as [[[]|e] w']; simpl; [set_solver|].
    apply Hcode.
  - destruct (update_status_cases toISOString id status feedback w)
      as [(found & Hget & ->)|[(Hget & ->)|(e & w1 & Hget & ->)]]; simpl.
    + destruct (updateContent _ _ _) as [[ok|e] w'] eqn:Hupd; simpl; [done|].
      intros _. by rewrite (updateContent_error_store _ _ _ _ _ Hupd).
    + done.
    + intros _. destruct (getContentById_cases w id)
        as [(recs & _ & Hrun)|[e' [Hrun | Hrun]]]; rewrite Hrun in Hget;
        by simplify_eq.
  - by intros [|].
  - intros _ _ Hinit. unfold update_status, getContentById, syncSheet. run.
    by rewrite Hinit.
Qed.

(** X19.  When no data row carries the identifier, the status route
    answers 404 with the message [Content with ID ... not found] and the
    store is unchanged (for an initialised service, a reachable store and a
    schema of 1 to 26 columns whose first column alone is named
    ['Post ID']). *)
Theorem post_status_not_found (id status feedback : value) (w : world)
    (h0 : value) (rest : list value) :
  Ready w → 1 ≤ length (schema w) ≤ 26 →
  schema w = h0 :: rest → toKey h0 = "Post ID"%string →
  "Post ID"%string ∉ toKey <$> rest →
  truthy id = true → truthy status = true →
  no_match (grid (store w)) id →
  post_status id status feedback w =
    (Response 404
       (ReplyError ("Content with ID " +:+ js_String id +:+ " not found")),
     synced w) ∧
  store (synced w) = store w.
Proof.
  intros HR Hn Hs Hk Hrest Hid Hst Hno. split; [|done].
  rewrite (post_status_of_error _ _ _ _ (ErrNotFound id) (synced w)); [|done..|].
  - by destruct (not_found_message thrown_message id) as [-> ->].
  - unfold update_status. run.
    by rewrite (getContentById_no_match w id h0 rest).
Qed.

Lemma status_updates_untouched (now : nat) (status feedback : value)
    (found : gmap string value) (k : string) :
  k ∉ touched_fields status feedback →
  status_updates now status feedback found !! k = found !! k.
Proof.
  unfold touched_fields, status_updates. intros Hk.
  rewrite !not_elem_of_app in Hk. destruct Hk as (Hs & Hf & Ha).
  apply not_elem_of_cons in Hs as [Hs _].
  destruct (truthy feedback), (strict_eq status (VStr "Approved"));
    repeat match goal with
      | H : _ ∉ _ :: _ |- _ => apply not_elem_of_cons in H as [? H]
      end;
    by rewrite ?lookup_insert_ne by done.
Qed.

Lemma status_updates_Status (now : nat) (status feedback : value)
    (found : gmap string value) :
  status_updates now status feedback found !! "Status"%string = Some status.
Proof.
  unfold status_updates.
  destruct (truthy feedback), (strict_eq status (VStr "Approved"));
    by rewrite ?lookup_insert_ne, lookup_insert_eq by done.
Qed.

Lemma status_updates_feedback (now : nat) (status feedback : value)
    (found : gmap string value) :
  truthy feedback = true →
  status_updates now status feedback found !! "Last Feedback"%string = Some feedback.
Proof.
  unfold status_updates. intros ->.
  destruct (strict_eq status (VStr "Approved"));
    by rewrite ?lookup_insert_ne, lookup_insert_eq by done.
Qed.

Lemma status_updates_approved (now : nat) (feedback : value)
    (found : gmap string value) :
  status_updates now (VStr "Approved") feedback found !! "Approved By"%string
  = Some (VStr "System").
Proof. unfold status_updates. simpl. by rewrite lookup_insert_eq. Qed.

Lemma status_updates_defined (now : nat) (status feedback : value)
    (found : gmap string value) (k : string) (v : value) :
  found !! k = Some v → is_Some (status_updates now status feedback found !! k).
Proof.
  intros Hv. unfold status_updates.
  destruct (truthy feedback), (strict_eq status (VStr "Approved"));
    rewrite ?lookup_insert_is_Some'; eauto 10.
Qed.

End RouteTheorems.

Section RouteRoundTrips.

Context (toISOString : nat → string) (thrown_message : string).


(** X20.  The status route changes the status and nothing it was not asked
    to change.  For an initialised service on a reachable store, a schema of
    1 to 26 columns whose first column alone is named ['Post ID'] and none of
    whose columns is named [__proto__], and a
    data row carrying the (truthy) identifier, a request with a truthy status
    is answered 200, and the record found afterwards holds the new status,
    the feedback when one was sent, ['System'] as approver when the status
    is ['Approved'], and in every other field of the schema what the record
    held before, blank fields included. *)
Theorem post_status_updates_record (id status feedback : value) (w : world)
    (h0 : value) (rest : list value) (j : nat) (row : list value) :
  Ready w → 1 ≤ length (schema w) ≤ 26 →
  schema w = h0 :: rest → toKey h0 = "Post ID"%string →
  "Post ID"%string ∉ toKey <$> rest →
  "__proto__"%string ∉ toKey <$> schema w →
  truthy id = true → truthy status = true →
  0 < j → grid (store w) !! j = Some row → js_index row 0 = id →
  ∃ before after w',
    getContentById id w = (OK (Some before), synced w) ∧
    post_status toISOString thrown_message id status feedback w =
      (Response 200 (ReplyMessage "Status updated successfully"), w') ∧
    getContentById id w' = (OK (Some after), synced w') ∧
    (∀ h, h ∈ schema w → toKey h ∉ touched_fields status feedback →
          after !! toKey h = before !! toKey h) ∧
    ("Status"%string ∈ toKey <$> schema w →
     after !! "Status"%string = Some status) ∧
    (truthy feedback = true → "Last Feedback"%string ∈ toKey <$> schema w →
     after !! "Last Feedback"%string = Some feedback) ∧
    (status = VStr "Approved" → "Approved By"%string ∈ toKey <$> schema w →
     after !! "Approved By"%string = Some (VStr "System")).
Proof.
  intros HR Hn Hs Hk Hrest Hproto Hid Hst Hj Hrow Hcell.
  destruct (first_match_exists _ _ _ _ Hj Hrow Hcell) as [r Hfirst].
  pose proof Hfirst as (Hpos & (old & Hold & Hold0) & _).
  set (before := row_to_item (schema w) old).
  set (updates := status_updates toISOString (clock w) status feedback before).
  assert (Hget : getContentById id w = (OK (Some before), synced w))
    by by eapply getContentById_found.
  assert (Hpost_id : "Post ID"%string ∉ touched_fields status feedback).
  { unfold touched_fields.
    destruct (truthy feedback), (strict_eq status (VStr "Approved")); simpl;
      intros H; repeat (apply elem_of_cons in H as [H|H]; [discriminate|]);
      by apply elem_of_nil in H. }
  assert (Hpatch : obj_get updates "Post ID" = id).
  { unfold obj_get at 1. unfold updates.
    rewrite (status_updates_untouched toISOString) by done.
    fold (obj_get before "Post ID"). unfold before.
    rewrite Hs, row_to_item_Post_ID, Hold0 by done. by apply js_or_truthy. }
  destruct (update_then_lookup (synced w) id updates h0 rest r old)
    as [Hupd Hget2]; [by apply Ready_synced|done..|by right|].
  rewrite schema_synced in Hupd, Hget2.
  set (new := newRowData (schema w) updates old) in *.
  set (w2 := written (synced w) r new) in *.
  set (after := row_to_item (schema w) (new ++ drop (length (schema w)) old)) in *.
  assert (Hafter : ∀ k, k ∈ toKey <$> schema w → obj_get updates k ≠ VUndef →
                        after !! k = Some (js_or (obj_get updates k) VNull)).
  { intros k Hk' Hne. apply updated_item_patched; [|done..]. by intros ->. }
  exists before, after, w2. split; [done|]. split; [|split; [done|]].
  { unfold post_status. rewrite Hid, Hst. simpl.
    unfold update_status. run. rewrite Hget. simpl.
    fold updates. by rewrite Hupd. }
  split; [|split; [|split]].
  - intros h Hh Huntouched.
    assert (Hin : toKey h ∈ toKey <$> schema w) by by apply list_elem_of_fmap_2.
    assert (is_Some (before !! toKey h)) as [v Hv].
    { apply elem_of_dom. unfold before. rewrite row_to_item_dom by done.
      by apply elem_of_list_to_set. }
    pose proof (row_to_item_null_or_truthy _ _ _ _ Hv) as Hnt.
    assert (Hu : obj_get updates (toKey h) = v).
    { apply obj_get_own. unfold updates.
      by rewrite (status_updates_untouched toISOString), Hv by done. }
    rewrite Hafter, Hu, Hv; [|done|].
    + f_equal. destruct Hnt as [-> | Ht]; [done|by apply js_or_truthy].
    + rewrite Hu. intros ->. by destruct Hnt.
  - intros Hin.
    assert (Hu : obj_get updates "Status" = status).
    { apply obj_get_own. apply (status_updates_Status toISOString). }
    rewrite Hafter, Hu; [by rewrite js_or_truthy|done|].
    rewrite Hu. intros ->. done.
  - intros Hf Hin.
    assert (Hu : obj_get updates "Last Feedback" = feedback).
    { apply obj_get_own. by apply (status_updates_feedback toISOString). }
    rewrite Hafter, Hu; [by rewrite js_or_truthy|done|].
    rewrite Hu. intros ->. done.
  - intros -> Hin.
    assert (Hu : obj_get updates "Approved By" = VStr "System").
    { apply obj_get_own. apply (status_updates_approved toISOString). }
    rewrite Hafter, Hu; [done|done|]. by rewrite Hu.
Qed.

(** X21.  The list route never writes and serves only valid items.  When
    the sync succeeds the answer is 200 with at most one item per data row,
    each with a non-empty id, platform and content and one of the five
    statuses; when the sync fails the answer is 500 with the body
    [Failed to fetch content]. *)
Theorem get_content_serves_valid (w : world) :
  let answer := get_content toISOString w in
  store answer.2 = store w ∧
  match res_json answer.1 with
  | inl items =>
      res_status answer.1 = 200 ∧ is_OK (syncSheet w).1 = true ∧
      length items ≤ length (grid (store w)) - 1 ∧
      ∀ item, item ∈ items →
        item_id item ≠ ""%string ∧ platform item ≠ ""%string ∧
        content item ≠ ""%string ∧ status item ∈ statuses
  | inr body =>
      res_status answer.1 = 500 ∧ is_OK (syncSheet w).1 = false ∧
      body = ReplyError "Failed to fetch content"
  end.
Proof.
  intros answer. unfold answer, get_content.
  destruct (syncSheet_cases w) as [(n & _ & _ & ->)|[e [-> | ->]]]; simpl;
    [|done..].
  split; [done|]. split; [done|]. split; [done|]. split.
  - etransitivity; [apply List.filter_length_le|].
    by rewrite !length_fmap, length_drop.
  - intros item Hitem. apply list_elem_of_In, filter_In in Hitem as [_ Hvalid].
    unfold validContent in Hvalid.
    repeat (apply andb_true_iff in Hvalid as [Hvalid ?]).
    repeat match goal with
      | H : negb (String.eqb _ _) = true |- _ =>
          apply negb_true_iff, String.eqb_neq in H
      end.
    by rewrite bool_decide_eq_true in *.
Qed.

End RouteRoundTrips.

Lemma post_status_not_found_witness :
  post_status example_iso example_message (VStr "c") (VStr "Approved") VUndef
    (example_world headers_PostID)
  = (Response 404 (ReplyError "Content with ID c not found"),
     synced (example_world headers_PostID)) ∧
  store (synced (example_world headers_PostID)) = store (example_world headers_PostID).
Proof.
  apply (post_status_not_found example_iso example_message (VStr "c")
           (VStr "Approved") VUndef (example_world headers_PostID)
           (VStr "Post ID") [VStr "Status"]).
  - repeat split; reflexivity.
  - simpl. lia.
  - reflexivity.
  - reflexivity.
  - simpl. intros H. apply elem_of_cons in H as [H|H]; [discriminate|].
    by apply elem_of_nil in H.
  - reflexivity.
  - reflexivity.
  - intros [|[|[|j]]] row Hpos Hrow; simpl in Hrow; [lia|..|done];
      injection Hrow as <-; discriminate.
Defined.

Lemma post_status_updates_record_witness :
  ∃ before after w',
    getContentById (VStr "b") (example_world headers_PostID)
      = (OK (Some before), synced (example_world headers_PostID)) ∧
    post_status example_iso example_message (VStr "b") (VStr "Published") VUndef
      (example_world headers_PostID)
      = (Response 200 (ReplyMessage "Status updated successfully"), w') ∧
    getContentById (VStr "b") w' = (OK (Some after), synced w') ∧
    after !! "Post ID"%string = before !! "Post ID"%string ∧
    after !! "Status"%string = Some (VStr "Published").
Proof.
  destruct (post_status_updates_record example_iso example_message (VStr "b")
              (VStr "Published") VUndef (example_world headers_PostID)
              (VStr "Post ID") [VStr "Status"] 2 [VStr "b"; VStr "Approved"])
    as (before & after & w' & Hget & Hpost & Hget' & Hkept & Hstatus & _).
  - repeat split; reflexivity.
  - simpl. lia.
  - reflexivity.
  - reflexivity.
  - simpl. intros H. apply elem_of_cons in H as [H|H]; [discriminate|].
    by apply elem_of_nil in H.
  - simpl. intros H.
    repeat (apply elem_of_cons in H as [H|H]; [discriminate|]).
    by apply elem_of_nil in H.
  - reflexivity.
  - reflexivity.
  - lia.
  - reflexivity.
  - reflexivity.
  - exists before, after, w'.
    split; [exact Hget|]. split; [exact Hpost|]. split; [exact Hget'|]. split.
    + apply (Hkept (VStr "Post ID")).
      * apply list_elem_of_In. simpl. auto.
      * vm_compute. intros H. apply elem_of_cons in H as [H|H]; [discriminate|].
        by apply elem_of_nil in H.
    + apply Hstatus. apply list_elem_of_In. simpl. auto.
Defined.
